(** * jupyter_cadquery.tessellator: mesh extraction, edge extraction, quality
      estimation and the memoised [tessellate] entry point.

    The development embeds [src/jupyter_cadquery/tessellator.py].  Python
    floats are kept abstract (class [Float64]); what the CAD kernel (OCP)
    hands back is described by records holding exactly the accessors the
    Python code calls; the kernel entry points that compute something are
    the fields of class [OCP]. *)

From stdpp Require Import base decidable option list strings gmap fin_maps.
From Stdlib Require Import ZArith QArith Qround Qabs Lia.

Open Scope Z_scope.

(** ** Python floats *)

(** The arithmetic of Python's [float] that the module uses.  [f_of_int] is
    the implicit int-to-float conversion of a literal such as [300] or [0];
    [float32] and [int32] are the element conversions of
    [np.asarray(_, dtype=np.float32)] and [np.asarray(_, dtype=np.int32)]. *)
Class Float64 (F : Type) := {
  f_eq_dec :: EqDecision F;
  f_add : F → F → F;
  f_mul : F → F → F;
  f_div : F → F → F;
  f_of_int : Z → F;
  f_gtb : F → F → bool;
  float32 : F → F;
  int32 : Z → Z;
}.

(** ** Exceptions *)

Inductive PyExc :=
| IndexError
| TypeError
| KeyError (k : string)
| AttributeError
| AssertionError (msg : string)
| Standard_Failure (msg : string).

Inductive Result (A : Type) :=
| Ok (a : A)
| Raise (e : PyExc).
Arguments Ok {A} a.
Arguments Raise {A} e.

#[global] Instance Result_ret : MRet Result := λ A a, Ok a.

#[global] Instance Result_bind : MBind Result := λ A B k m,
  match m with
  | Ok a => k a
  | Raise e => Raise e
  end.

(** What reaches the outside besides the returned value: text written to
    standard output, the report of a [Timer], and each invocation of the
    kernel's mesher (the call counter a test double would keep). *)
Inductive Event :=
| Printed (s : string)
| TimerReport (activity : string)
| MesherCalled.

(** A computation that may write events and may raise. *)
Definition Run (A : Type) : Type := list Event * Result A.

#[global] Instance Run_ret : MRet Run := λ A a, ([], Ok a).

#[global] Instance Run_bind : MBind Run := λ A B k m,
  match m with
  | (l, Ok a) => let '(l', r) := k a in (l ++ l', r)
  | (l, Raise e) => (l, Raise e)
  end.

Definition emit (e : Event) : Run unit := ([e], Ok tt).

Definition lift {A} (r : Result A) : Run A := ([], r).

(** Modelled from the spec: the context manager [Timer] of
    jupyter_cadquery.utils, which is not among the sources.  It belongs to
    the side channel: it reports the activity when [timeit] is set, and an
    exception raised in its body passes through it unchanged. *)
Definition with_Timer {A} (timeit : bool) (name activity : string) (level : nat)
    (body : Run A) : Run A :=
  let '(l, r) := body in
  (l ++ (if timeit then [TimerReport activity] else []), r).

(** ** What the kernel exposes *)

Inductive TopAbs_Orientation :=
| TopAbs_FORWARD
| TopAbs_REVERSED
| TopAbs_INTERNAL
| TopAbs_EXTERNAL.

#[global] Instance TopAbs_Orientation_eq_dec : EqDecision TopAbs_Orientation.
Proof. solve_decision. Defined.

Section Kernel_data.
Context {F : Type}.

(** A [gp_Pnt] or [gp_Vec], identified with what [.Coord()] returns. *)
Definition XYZ : Type := F * F * F.

(** [flat.extend(p.Coord())] appends the three coordinates. *)
Definition Coord (p : XYZ) : list F :=
  let '(x, y, z) := p in [x; y; z].

(** [loc.Transformation()]: the action of the transform on a point. *)
Definition gp_Trsf : Type := XYZ → XYZ.

Definition Transformed (p : XYZ) (T : gp_Trsf) : XYZ := T p.

(** [Poly_Triangulation]: indices of [Node], [Triangle] and [UVNode] run
    from 1; [Triangle i] is [poly.Triangle(i).Get()]. *)
Record Poly_Triangulation := {
  NbNodes : nat;
  Node : nat → XYZ;
  NbTriangles : nat;
  Triangle : nat → Z * Z * Z;
  HasUVNodes : bool;
  UVNode : nat → F * F;
}.

(** [coord[k]] on the tuple returned by [Get()]. *)
Definition coord_get (coord : Z * Z * Z) (k : nat) : Z :=
  let '(n0, n1, n2) := coord in
  match k with
  | O => n0
  | S O => n1
  | _ => n2
  end.

(** A face: its orientation, [BRep_Tool.Triangulation_s(face, loc)]
    (the triangulation together with the location written to [loc], or
    [None]) and [BRepGProp_Face(face).Normal(u, v, _, n_buf)]. *)
Record TopoDS_Face := {
  Orientation : TopAbs_Orientation;
  Triangulation_s : option (Poly_Triangulation * gp_Trsf);
  BRepGProp_Face_Normal : F → F → XYZ;
}.

(** [Poly_PolygonOnTriangulation], in the two shapes of the binding:
    OCCT > 7.5 has [NbNodes()] and [Node(j)]; OCCT 7.5 has [Nodes()],
    an array with [Lower()], [Upper()] and [Value(j)]. *)
Inductive Poly_PolygonOnTriangulation :=
| PolygonNode (nb_nodes : nat) (node : nat → nat)
| PolygonNodes (lower upper : Z) (value : Z → nat).

Record BRepAdaptor_Curve := {
  FirstParameter : F;
  LastParameter : F;
  Value : F → XYZ;
}.

(** An edge: the faces [face_map.FindFromKey(edge)] lists for it,
    [BRep_Tool.PolygonOnTriangulation_s(edge, triangle, loc)] for a
    triangulation that is there, and its curve. *)
Record TopoDS_Edge := {
  FindFromKey : list TopoDS_Face;
  PolygonOnTriangulation : Poly_Triangulation → gp_Trsf → option Poly_PolygonOnTriangulation;
  Curve : BRepAdaptor_Curve;
}.

(** A shape, as far as the module looks at it: [HashCode(2147483647)],
    what [TopExp_Explorer(shape, TopAbs_SOLID)] enumerates (one entry per
    solid), its faces and the edges of [TopExp.MapShapes_s]. *)
Record TopoDS_Shape := {
  HashCode : Z;
  Solids : list unit;
  Faces : list TopoDS_Face;
  Edges : list TopoDS_Edge;
}.

(** [GCPnts_QuasiUniformDeflection] after [Initialize]. *)
Record GCPnts_QuasiUniformDeflection := {
  IsDone : bool;
  NbPoints : nat;
  GCPnts_Parameter : nat → F;
}.
End Kernel_data.

Arguments XYZ : clear implicits.
Arguments gp_Trsf : clear implicits.
Arguments Poly_Triangulation : clear implicits.
Arguments TopoDS_Face : clear implicits.
Arguments BRepAdaptor_Curve : clear implicits.
Arguments TopoDS_Edge : clear implicits.
Arguments TopoDS_Shape : clear implicits.
Arguments GCPnts_QuasiUniformDeflection : clear implicits.

(** The kernel calls that compute.  Meshing updates the shape in place and
    may raise; here it returns the shape as it is afterwards. *)
Class OCP (F : Type) := {
  gp_Vec_SquareMagnitude : XYZ F → F;
  gp_Vec_Normalize : XYZ F → XYZ F;
  BRepTools_Clean_s : TopoDS_Shape F → TopoDS_Shape F;
  BRepMesh_IncrementalMesh :
    TopoDS_Shape F → F → bool → F → bool → Result (TopoDS_Shape F);
  Compound_makeCompound : list (TopoDS_Shape F) → TopoDS_Shape F;
  GCPnts_Initialize : BRepAdaptor_Curve F → F → F → F → GCPnts_QuasiUniformDeflection F;
}.

(** ** The rest of the package *)

(** [round_sig] is imported from jupyter_cadquery.utils, which is not among
    the sources: it is taken as given.  [round_sig x n] is [x] rounded to
    [n] significant decimal digits. *)
Class Utils (F : Type) := {
  round_sig : F → Z → F;
}.

(** Modelled from the spec: [get_faces] of jupyter_cadquery.ocp_utils, which
    is not among the sources; the faces of the shape in traversal order. *)
Definition get_faces {F} (shape : TopoDS_Shape F) : list (TopoDS_Face F) :=
  Faces shape.

(** [range(a, b)] over the integers. *)
Definition py_range (a b : Z) : list Z :=
  map (λ k, a + Z.of_nat k) (seq 0 (Z.to_nat (b - a))).

(** ** class Tessellator *)

Module Tessellator.
Section Methods.
Context {F : Type} `{!Float64 F, !OCP F}.

Record t := {
  vertices : list F;
  triangles : list Z;
  normals : list F;
  shape : option (TopoDS_Shape F);
  edges : list (XYZ F * XYZ F);
}.

Definition init : t :=
  {| vertices := []; triangles := []; normals := []; shape := None; edges := [] |}.

Definition set_shape (self : t) (s : TopoDS_Shape F) : t :=
  {| vertices := vertices self; triangles := triangles self;
     normals := normals self; shape := Some s; edges := edges self |}.

Definition set_edges (self : t) (e : list (XYZ F * XYZ F)) : t :=
  {| vertices := vertices self; triangles := triangles self;
     normals := normals self; shape := shape self; edges := e |}.

Definition set_buffers (self : t) (v : list F) (tr : list Z) (n : list F) : t :=
  {| vertices := v; triangles := tr; normals := n;
     shape := shape self; edges := edges self |}.

(** [number_solids]: the explorer is stepped until [More()] fails. *)
Fixpoint number_solids_loop (e : list unit) (count : nat) : nat :=
  match e with
  | [] => count
  | _ :: e' => number_solids_loop e' (S count)
  end.

Definition number_solids (s : TopoDS_Shape F) : nat :=
  number_solids_loop (Solids s) 0.

(** The state carried around the loop over the faces in [tessellate]. *)
Record buffers := {
  b_vertices : list F;
  b_triangles : list Z;
  b_normals : list F;
  offset : Z;
}.

(** The normal computed for node [i] of a face (lines 143 to 147).  For an
    internal face line 147 calls [.Coord()] on what [n_buf.Reverse()]
    returns: [Reverse] reverses the vector in place and returns [None], so
    that the call raises [AttributeError]. *)
Definition node_normal (face : TopoDS_Face F) (poly : Poly_Triangulation F)
    (internal : bool) (i : nat) : Result (list F) :=
  let '(u, v) := UVNode poly i in
  let n_buf := BRepGProp_Face_Normal face u v in
  let n_buf :=
    if f_gtb (gp_Vec_SquareMagnitude n_buf) (f_of_int 0)
    then gp_Vec_Normalize n_buf else n_buf in
  if internal then Raise AttributeError else Ok (Coord n_buf).

(** The triangles one face appends, given the winding and the offset. *)
Definition face_triangles (poly : Poly_Triangulation F) (i1 i2 : nat) (offset : Z)
    : list Z :=
  flat_map (λ i, let coord := Triangle poly i in
                 [coord_get coord 0 + offset; coord_get coord i1 + offset;
                  coord_get coord i2 + offset])
           (seq 1 (NbTriangles poly)).

(** The body of the loop over the faces: the buffers it leaves and the
    exception it raises, if any.  The vertices and the triangles of the face
    are appended first; an exception in the loop over the normals leaves
    the normals and the offset as they were. *)
Definition tessellate_face (st : buffers) (face : TopoDS_Face F)
    : buffers * option PyExc :=
  let '(i1, i2) :=
    if decide (Orientation face = TopAbs_REVERSED) then (2, 1)%nat else (1, 2)%nat in
  let internal := bool_decide (Orientation face = TopAbs_INTERNAL) in
  match Triangulation_s face with
  | Some (poly, loc_buf) =>
      let Trsf := loc_buf in
      let flat_v :=
        flat_map (λ i, Coord (Transformed (Node poly i) Trsf)) (seq 1 (NbNodes poly)) in
      let vertices := b_vertices st ++ flat_v in
      let flat_t := face_triangles poly i1 i2 (offset st) in
      let triangles := b_triangles st ++ flat_t in
      if HasUVNodes poly
      then
        match mapM (node_normal face poly internal) (seq 1 (NbNodes poly)) with
        | Ok flat =>
            ({| b_vertices := vertices; b_triangles := triangles;
                b_normals := b_normals st ++ concat flat;
                offset := offset st + Z.of_nat (NbNodes poly) |}, None)
        | Raise e =>
            ({| b_vertices := vertices; b_triangles := triangles;
                b_normals := b_normals st; offset := offset st |}, Some e)
        end
      else
        ({| b_vertices := vertices; b_triangles := triangles;
            b_normals := b_normals st;
            offset := offset st + Z.of_nat (NbNodes poly) |}, None)
  | None => (st, None)
  end.

Definition buffers0 : buffers :=
  {| b_vertices := []; b_triangles := []; b_normals := []; offset := -1 |}.

(** The loop over the faces, left at the first exception. *)
Fixpoint tessellate_faces (faces : list (TopoDS_Face F)) (st : buffers)
    : buffers * option PyExc :=
  match faces with
  | [] => (st, None)
  | face :: faces' =>
      match tessellate_face st face with
      | (st', None) => tessellate_faces faces' st'
      | (st', Some e) => (st', Some e)
      end
  end.

(** The buffers and the offset when the loop is over or is left. *)
Definition tessellate_loop (faces : list (TopoDS_Face F)) : buffers :=
  (tessellate_faces faces buffers0).1.

(** The exception that ends the loop, if any. *)
Definition tessellate_raised (faces : list (TopoDS_Face F)) : option PyExc :=
  (tessellate_faces faces buffers0).2.

(** [tessellate]: with no shape set, the kernel call inside [get_faces]
    rejects [None]. *)
Definition tessellate (self : t) : Result t :=
  match shape self with
  | Some s =>
      match tessellate_faces (get_faces s) buffers0 with
      | (st, None) =>
          Ok (set_buffers self (b_vertices st) (b_triangles st) (b_normals st))
      | (_, Some e) => Raise e
      end
  | None => Raise TypeError
  end.

(** The node indices [index(j)] for [j] in [nrange], in order. *)
Definition polygon_indices (poly : Poly_PolygonOnTriangulation) : list nat :=
  match poly with
  | PolygonNode nb_nodes node => map node (seq 1 nb_nodes)
  | PolygonNodes lower upper value => map value (py_range lower (upper + 1))
  end.

(** The body of the loop over [nrange]; the state is [self.edges] and [v1]. *)
Definition edge_step (triangle : Poly_Triangulation F) (transf : gp_Trsf F)
    (st : list (XYZ F * XYZ F) * option (XYZ F)) (idx : nat)
    : list (XYZ F * XYZ F) * option (XYZ F) :=
  let '(edges, v1) := st in
  let v2 := Transformed (Node triangle idx) transf in
  (match v1 with
   | Some v1 => edges ++ [(v1, v2)]
   | None => edges
   end, Some v2).

(** The body of the loop over the edges.  For a face without
    triangulation the kernel is asked for the polygon on a null
    triangulation and has none. *)
Definition compute_edges_edge (edges : list (XYZ F * XYZ F)) (edge : TopoDS_Edge F)
    : list (XYZ F * XYZ F) :=
  match FindFromKey edge with
  | [] => edges
  | face :: _ =>
      match Triangulation_s face with
      | None => edges
      | Some (triangle, loc) =>
          match PolygonOnTriangulation edge triangle loc with
          | None => edges
          | Some poly =>
              let transf := loc in
              fst (fold_left (edge_step triangle transf) (polygon_indices poly)
                             (edges, None))
          end
      end
  end.

Definition compute_edges (self : t) : Result t :=
  match shape self with
  | Some s => Ok (set_edges self (fold_left compute_edges_edge (Edges s) (edges self)))
  | None => Raise TypeError
  end.

(** [compute].  The mesher works on the shape object itself, so that
    [self.shape] is the meshed shape afterwards. *)
Definition compute (self : t) (shape : TopoDS_Shape F) (quality angular_tolerance : F)
    (compute_faces compute_edges_flag debug progress : bool) : Run t :=
  _ ← (if progress then emit (Printed "t") else mret tt);
  let self := set_shape self shape in
  let count := number_solids shape in
  let parallel := bool_decide (1 < count)%nat in
  shape ← with_Timer debug EmptyString
    ("mesh incrementally " +:+ (if parallel then "(parallel)" else EmptyString)) 3
    (let shape := BRepTools_Clean_s shape in
     _ ← emit MesherCalled;
     lift (BRepMesh_IncrementalMesh shape quality false angular_tolerance parallel));
  let self := set_shape self shape in
  self ← (if compute_faces
          then with_Timer debug EmptyString "get nodes, triangles and normals" 3
                 (lift (tessellate self))
          else mret self);
  self ← (if compute_edges_flag
          then with_Timer debug EmptyString "get edges" 3 (lift (compute_edges self))
          else mret self);
  mret self.

Definition get_vertices (self : t) : list F := map float32 (vertices self).

Definition get_triangles (self : t) : list Z := map int32 (triangles self).

Definition get_normals (self : t) : list F := map float32 (normals self).

Definition float32_xyz (p : XYZ F) : XYZ F :=
  let '(x, y, z) := p in (float32 x, float32 y, float32 z).

Definition get_edges (self : t) : list (XYZ F * XYZ F) :=
  map (λ '(v1, v2), (float32_xyz v1, float32_xyz v2)) (edges self).
End Methods.

Arguments t : clear implicits.
Arguments buffers : clear implicits.
End Tessellator.

(** ** cachetools: [LRUCache] and the [cached] decorator *)

Module LRUCache.
Section Cache.
Context {K V : Type} `{!EqDecision K}.
Variable maxsize : Z.
Variable getsizeof : V → Z.

(** The entries, least recently used first; a key occurs at most once. *)
Definition t : Type := list (K * V).

Definition currsize (c : t) : Z :=
  foldr (λ kv acc, getsizeof kv.2 + acc) 0 c.

Fixpoint lookup (c : t) (k : K) : option V :=
  match c with
  | [] => None
  | (k', v) :: c' => if decide (k' = k) then Some v else lookup c' k
  end.

Definition remove (c : list (K * V)) (k : K) : list (K * V) :=
  filter (λ kv, kv.1 ≠ k) c.

(** [cache[k]]: [None] stands for [KeyError]; a hit makes the entry the
    most recently used one. *)
Definition getitem (c : t) (k : K) : option (V * t) :=
  match lookup c k with
  | Some v => Some (v, remove c k ++ [(k, v)])
  | None => None
  end.

(** [popitem] until the new value fits. *)
Fixpoint evict (size : Z) (c : t) : t :=
  match c with
  | [] => []
  | _ :: c' => if bool_decide (maxsize < currsize c + size) then evict size c' else c
  end.

(** [cache[k] = v]: [None] stands for [ValueError] (value too large). *)
Definition setitem (c : t) (k : K) (v : V) : option t :=
  let size := getsizeof v in
  if bool_decide (maxsize < size) then None
  else
    let c :=
      match lookup c k with
      | Some old => if bool_decide (getsizeof old < size) then evict size c else c
      | None => evict size c
      end in
    Some (remove c k ++ [(k, v)]).

(** [cached(cache, key=key)(func)] applied to a call [a]: the cache after
    the call, what was written, and the value returned or the exception. *)
Definition cached {A : Type} (key : A → Result K) (func : A → Run V)
    (c : t) (a : A) : t * Run V :=
  match key a with
  | Raise e => (c, ([], Raise e))
  | Ok k =>
      match getitem c k with
      | Some (v, c') => (c', ([], Ok v))
      | None =>
          match func a with
          | (l, Raise e) => (c, (l, Raise e))
          | (l, Ok v) =>
              match setitem c k v with
              | Some c' => (c', (l, Ok v))
              | None => (c, (l, Ok v))
              end
          end
      end
  end.
End Cache.
End LRUCache.

(** ** Module-level functions *)

#[local] Set Warnings "-register-all".

(** What [sys.getsizeof] is asked about. *)
Inductive PyObj :=
| PDict (items : list (string * PyObj))
| PArray (size itemsize : Z)
| PSeq (items : list PyObj)
| POther.

Class Sys := {
  sys_getsizeof : PyObj → Z;
}.

Section Module_level.
Context {F : Type} `{!Float64 F, !OCP F, !Utils F, !Sys}.

(** A call [tessellate(shapes, quality, angular_tolerance, *args, **kwargs)]:
    the first three arguments, passed by position (the first parameter is
    [shape] for [make_key] and [shapes] for [tessellate]), the further
    positional arguments and the keyword arguments, at their annotated
    types.  The decorator hands the same arguments to [make_key] and to
    the decorated function. *)
Record Call := {
  c_shapes : list (TopoDS_Shape F);
  c_quality : F;
  c_angular_tolerance : F;
  c_args : list bool;
  c_kwargs : gmap string bool;
}.

(** The value a parameter is bound to: positional, else keyword, else
    default. *)
Definition bound (args : list bool) (kwargs : gmap string bool)
    (i : nat) (name : string) (dflt : bool) : bool :=
  match args !! i with
  | Some b => b
  | None => default dflt (kwargs !! name)
  end.

(** Whether [*args, **kwargs] fit the parameters after the third of a
    signature.  It is a [TypeError] to pass too many positional arguments, a
    keyword that is no parameter, or a keyword for a parameter already bound
    by position. *)
Definition binds (names : list string) (args : list bool)
    (kwargs : gmap string bool) : bool :=
  bool_decide ((length args ≤ length names)%nat ∧
               dom kwargs ⊆ list_to_set (C := gset string) (drop (length args) names)).

(** Binding of the four parameters after the third of a signature, given
    their names and defaults. *)
Definition bind4 (n1 n2 n3 n4 : string) (d1 d2 d3 d4 : bool)
    (args : list bool) (kwargs : gmap string bool)
    : Result (bool * bool * bool * bool) :=
  if binds [n1; n2; n3; n4] args kwargs
  then Ok (bound args kwargs 0 n1 d1, bound args kwargs 1 n2 d2,
           bound args kwargs 2 n3 d3, bound args kwargs 3 n4 d4)
  else Raise TypeError.

Definition Key : Type := Z * F * F * bool * bool.

Definition make_key (c : Call) : Result Key :=
  '(compute_edges, compute_faces, debug, progress) ←
    bind4 "compute_edges" "compute_faces" "debug" "progress"
          true true false true (c_args c) (c_kwargs c);
  match c_shapes c with
  | shape0 :: _ =>
      Ok (HashCode shape0, c_quality c, c_angular_tolerance c,
          compute_edges, compute_faces)
  | [] => Raise IndexError
  end.

Fixpoint get_size (obj : PyObj) : Z :=
  let size := sys_getsizeof obj in
  match obj with
  | PDict items =>
      size + foldr Z.add 0
               (map (λ kv, get_size kv.2 + Z.of_nat (String.length kv.1)) items)
  | PArray sz itemsize => size + sz * itemsize
  | PSeq items => size + foldr Z.add 0 (map get_size items)
  | POther => size
  end.

(** The dict [tessellate] returns. *)
Record MeshResult := {
  vertices : list F;
  triangles : list Z;
  normals : list F;
  edges : list (XYZ F * XYZ F);
}.

(** The dict as [get_size] sees it: four arrays of 4-byte elements. *)
Definition MeshResult_obj (r : MeshResult) : PyObj :=
  PDict [("vertices", PArray (Z.of_nat (length (vertices r))) 4);
         ("triangles", PArray (Z.of_nat (length (triangles r))) 4);
         ("normals", PArray (Z.of_nat (length (normals r))) 4);
         ("edges", PArray (Z.of_nat (length (edges r)) * 2 * 3) 4)].

Definition maxsize : Z := 128 * 1024 * 1024.

Definition Cache : Type := list (Key * MeshResult).

Record BoundingBox := {
  xsize : F;
  ysize : F;
  zsize : F;
}.

Definition compute_quality (bb : BoundingBox) (deviation : F) : F :=
  let quality :=
    round_sig
      (f_mul (f_div (f_add (f_add (round_sig (xsize bb) 2) (round_sig (ysize bb) 2))
                           (round_sig (zsize bb) 2))
                    (f_of_int 300))
             deviation)
      2 in
  quality.

(** [Compound._makeCompound(shapes) if len(shapes) > 1 else shapes[0]]. *)
Definition compound_of (shapes : list (TopoDS_Shape F)) : Result (TopoDS_Shape F) :=
  if bool_decide (1 < length shapes)%nat then Ok (Compound_makeCompound shapes)
  else match shapes with
       | shape0 :: _ => Ok shape0
       | [] => Raise IndexError
       end.

(** The function under the decorator. *)
Definition tessellate_wrapped (c : Call) : Run MeshResult :=
  '(compute_faces, compute_edges, debug, progress) ← lift
    (bind4 "compute_faces" "compute_edges" "debug" "progress"
           true true false true (c_args c) (c_kwargs c));
  let shapes := c_shapes c in
  compound ← lift (compound_of shapes);
  let tess := Tessellator.init in
  tess ← Tessellator.compute tess compound (c_quality c) (c_angular_tolerance c)
           compute_faces compute_edges debug progress;
  mret {| vertices := Tessellator.get_vertices tess;
          triangles := Tessellator.get_triangles tess;
          normals := Tessellator.get_normals tess;
          edges := Tessellator.get_edges tess |}.

(** [tessellate], decorated with [cached(cache, key=make_key)]. *)
Definition tessellate (cache : Cache) (c : Call) : Cache * Run MeshResult :=
  LRUCache.cached maxsize (λ r, get_size (MeshResult_obj r))
                  make_key tessellate_wrapped cache c.

(** [bb[k]] on a dict. *)
Definition dict_getitem (bb : gmap string F) (k : string) : Result F :=
  match bb !! k with
  | Some x => Ok x
  | None => Raise (KeyError k)
  end.

(** The keys [bbox_edges] reads, in the order of the list literal; each
    line is one segment (two points). *)
Definition bbox_edges_keys : list string :=
  [
   "xmax"; "ymax"; "zmin"; "xmax"; "ymax"; "zmax";
   "xmax"; "ymin"; "zmax"; "xmax"; "ymax"; "zmax";
   "xmax"; "ymin"; "zmin"; "xmax"; "ymax"; "zmin";
   "xmax"; "ymin"; "zmin"; "xmax"; "ymin"; "zmax";
   "xmin"; "ymax"; "zmax"; "xmax"; "ymax"; "zmax";
   "xmin"; "ymax"; "zmin"; "xmax"; "ymax"; "zmin";
   "xmin"; "ymax"; "zmin"; "xmin"; "ymax"; "zmax";
   "xmin"; "ymin"; "zmax"; "xmax"; "ymin"; "zmax";
   "xmin"; "ymin"; "zmax"; "xmin"; "ymax"; "zmax";
   "xmin"; "ymin"; "zmin"; "xmax"; "ymin"; "zmin";
   "xmin"; "ymin"; "zmin"; "xmin"; "ymax"; "zmin";
   "xmin"; "ymin"; "zmin"; "xmin"; "ymin"; "zmax"
  ].

Definition bbox_edges (bb : gmap string F) : Result (list F) :=
  l ← mapM (dict_getitem bb) bbox_edges_keys;
  mret (map float32 l).

(** The loop [for i in range(len(points) - 1)] of [discretize_edge]. *)
Definition discretize_step (points : list (XYZ F))
    (acc : Result (list (XYZ F * XYZ F))) (i : Z) : Result (list (XYZ F * XYZ F)) :=
  edges ← acc;
  match points !! Z.to_nat i, points !! Z.to_nat (i + 1) with
  | Some p, Some q => Ok (edges ++ [(p, q)])
  | _, _ => Raise IndexError
  end.

Definition discretize_edge (edge : TopoDS_Edge F) (deflection : F)
    : Result (list (XYZ F * XYZ F)) :=
  let curve_adaptator := Curve edge in
  let discretizer :=
    GCPnts_Initialize curve_adaptator deflection
      (FirstParameter curve_adaptator) (LastParameter curve_adaptator) in
  if negb (IsDone discretizer) then Raise (AssertionError "Discretizer not done.")
  else
    let points :=
      map (λ i, Value curve_adaptator (GCPnts_Parameter discretizer i))
          (seq 1 (NbPoints discretizer)) in
    edges ← fold_left (discretize_step points)
                      (py_range 0 (Z.of_nat (length points) - 1)) (Ok []);
    mret (map (λ '(p, q), (Tessellator.float32_xyz p, Tessellator.float32_xyz q)) edges).
End Module_level.

Arguments Call : clear implicits.
Arguments MeshResult : clear implicits.
Arguments BoundingBox : clear implicits.
Arguments Key : clear implicits.
Arguments Cache : clear implicits.

(** ** Vocabulary of the properties *)

Section Vocabulary.
Context {F : Type} `{!Float64 F, !OCP F}.

(** The number of nodes a face contributes to the vertex buffer. *)
Definition face_nodes (face : TopoDS_Face F) : nat :=
  match Triangulation_s face with
  | Some (poly, _) => NbNodes poly
  | None => 0
  end.

(** The number of nodes a face contributes to the normals buffer. *)
Definition face_uv_nodes (face : TopoDS_Face F) : nat :=
  match Triangulation_s face with
  | Some (poly, _) => if HasUVNodes poly then NbNodes poly else 0
  | None => 0
  end.

(** Whether the loop over the normals of a face raises: the face is
    internal and its triangulation has UV nodes, and a node to start with. *)
Definition raises_at_normals (face : TopoDS_Face F) : bool :=
  match Triangulation_s face with
  | Some (poly, _) =>
      bool_decide (Orientation face = TopAbs_INTERNAL) && HasUVNodes poly
      && bool_decide (0 < NbNodes poly)%nat
  | None => false
  end.

(** The coordinates appended for the normal of node [i] of a face that is
    not internal. *)
Definition normal_coords (face : TopoDS_Face F) (poly : Poly_Triangulation F)
    (i : nat) : list F :=
  match Tessellator.node_normal face poly false i with
  | Ok coords => coords
  | Raise _ => []
  end.

(** The number of vertices held by a flat buffer of coordinates. *)
Definition vertex_count (vertices : list F) : nat := (length vertices / 3)%nat.

(** The loop state once the first [k] faces have been processed. *)
Definition after (faces : list (TopoDS_Face F)) (k : nat) : Tessellator.buffers F :=
  Tessellator.tessellate_loop (take k faces).

(** The triangle indices appended while face number [i] is processed. *)
Definition emitted (faces : list (TopoDS_Face F)) (i : nat) : list Z :=
  drop (length (Tessellator.b_triangles (after faces i)))
       (Tessellator.b_triangles (after faces (S i))).

(** [idx] is the index of a vertex appended while face number [j] is
    processed. *)
Definition appended_by (faces : list (TopoDS_Face F)) (j : nat) (idx : Z) : Prop :=
  Z.of_nat (vertex_count (Tessellator.b_vertices (after faces j))) ≤ idx
  < Z.of_nat (vertex_count (Tessellator.b_vertices (after faces (S j)))).

(** A triangulation as the kernel builds it: every triangle names three
    of its nodes, numbered from 1 to [NbNodes]. *)
Definition valid_triangle (n : nat) (coord : Z * Z * Z) : bool :=
  let '(n0, n1, n2) := coord in
  bool_decide (1 ≤ n0 ≤ Z.of_nat n) && bool_decide (1 ≤ n1 ≤ Z.of_nat n)
  && bool_decide (1 ≤ n2 ≤ Z.of_nat n).

Definition valid_triangulation (poly : Poly_Triangulation F) : bool :=
  forallb (λ i, valid_triangle (NbNodes poly) (Triangle poly i))
          (seq 1 (NbTriangles poly)).

Definition valid_face (face : TopoDS_Face F) : bool :=
  match Triangulation_s face with
  | Some (poly, _) => valid_triangulation poly
  | None => true
  end.

(** The number of node indices of a polygon on a triangulation. *)
Definition polygon_size (poly : Poly_PolygonOnTriangulation) : nat :=
  match poly with
  | PolygonNode nb_nodes _ => nb_nodes
  | PolygonNodes lower upper _ => Z.to_nat (upper - lower + 1)
  end.

(** The segments joining each element of a list to the next one. *)
Definition consecutive {A} (l : list A) : list (A * A) := zip l (tail l).

(** The point of the triangulation an index of a polygon refers to. *)
Definition polygon_points (triangle : Poly_Triangulation F) (loc : gp_Trsf F)
    (poly : Poly_PolygonOnTriangulation) : list (XYZ F) :=
  map (λ idx, Transformed (Node triangle idx) loc) (Tessellator.polygon_indices poly).

(** The scalars of a list of segments, point after point. *)
Definition flatten_segments (segs : list (XYZ F * XYZ F)) : list F :=
  flat_map (λ '(p, q), Coord p ++ Coord q) segs.

(** The twelve edges of an axis-aligned box, each from its lower to its
    upper end: four along x, four along y, four along z. *)
Definition box_edges (xmin xmax ymin ymax zmin zmax : F) : list (XYZ F * XYZ F) :=
  (y ← [ymin; ymax]; z ← [zmin; zmax]; [((xmin, y, z), (xmax, y, z))])
  ++ (x ← [xmin; xmax]; z ← [zmin; zmax]; [((x, ymin, z), (x, ymax, z))])
  ++ (x ← [xmin; xmax]; y ← [ymin; ymax]; [((x, y, zmin), (x, y, zmax))]).

(** The unit box as a dict. *)
Definition unit_box : gmap string F :=
  <["xmin" := f_of_int 0]> (<["xmax" := f_of_int 1]> (
  <["ymin" := f_of_int 0]> (<["ymax" := f_of_int 1]> (
  <["zmin" := f_of_int 0]> (<["zmax" := f_of_int 1]> ∅))))).

(** The parameters after the third, in the order of each signature. *)
Definition make_key_params : list string :=
  ["compute_edges"; "compute_faces"; "debug"; "progress"].

Definition tessellate_params : list string :=
  ["compute_faces"; "compute_edges"; "debug"; "progress"].

(** A call whose arguments fit both [make_key] and [tessellate]. *)
Definition accepted (c : Call F) : Prop :=
  binds make_key_params (c_args c) (c_kwargs c)
  ∧ binds tessellate_params (c_args c) (c_kwargs c).

(** Two calls that pass the same shapes, quality and angular tolerance and
    pass [compute_faces] and [compute_edges] the same way; how they pass
    [debug] and [progress], if at all, is left open. *)
Definition same_but_flags (c1 c2 : Call F) : Prop :=
  c_shapes c1 = c_shapes c2
  ∧ c_quality c1 = c_quality c2
  ∧ c_angular_tolerance c1 = c_angular_tolerance c2
  ∧ take 2 (c_args c1) = take 2 (c_args c2)
  ∧ delete "debug" (delete "progress" (c_kwargs c1))
    = delete "debug" (delete "progress" (c_kwargs c2)).

(** The accounted size of a result. *)
Definition result_size `{!Sys} (r : MeshResult F) : Z := get_size (MeshResult_obj r).

(** The number of triangles a face contributes. *)
Definition face_triangle_count (face : TopoDS_Face F) : nat :=
  match Triangulation_s face with
  | Some (poly, _) => NbTriangles poly
  | None => 0
  end.

(** The three coordinates of vertex number [idx] (from 0) of a flat buffer. *)
Definition vertex_at (vertices : list F) (idx : nat) : list F :=
  take 3 (drop (3 * idx) vertices).

(** The segments [compute_edges] appends for a shape. *)
Definition shape_segments (s : TopoDS_Shape F) : list (XYZ F * XYZ F) :=
  fold_left Tessellator.compute_edges_edge (Edges s) [].

(** [tessellate(shapes, quality, angular_tolerance, x, y)]. *)
Definition positional_call (shapes : list (TopoDS_Shape F)) (quality angular : F)
    (x y : bool) : Call F :=
  {| c_shapes := shapes; c_quality := quality; c_angular_tolerance := angular;
     c_args := [x; y]; c_kwargs := ∅ |}.

(** [tessellate(shapes, quality, angular_tolerance, compute_faces=cf,
    compute_edges=ce)]. *)
Definition keyword_call (shapes : list (TopoDS_Shape F)) (quality angular : F)
    (cf ce : bool) : Call F :=
  {| c_shapes := shapes; c_quality := quality; c_angular_tolerance := angular;
     c_args := [];
     c_kwargs := <["compute_faces" := cf]> (<["compute_edges" := ce]> ∅) |}.

(** What the cache is expected to keep: one entry per key at most, and a
    total accounted size within the budget. *)
Definition cache_ok `{!Sys} (cache : Cache F) : Prop :=
  NoDup cache.*1 ∧ LRUCache.currsize result_size cache ≤ maxsize.
End Vocabulary.

(** ** An instance for the examples

    Rationals with exact arithmetic stand for the floats, and a small
    stand-in for the kernel: it meshes nothing itself, a shape carries
    the triangulations that meshing leaves on it. *)

Module Exact.

#[global] Instance Q_eq_dec : EqDecision Q.
Proof. solve_decision. Defined.

Definition Q_gtb (x y : Q) : bool := negb (Qle_bool x y).

(** Two's complement wrap-around into 32 bits. *)
Definition wrap32 (z : Z) : Z := (z + 2 ^ 31) mod 2 ^ 32 - 2 ^ 31.

#[global] Instance Q_float : Float64 Q := {|
  f_add x y := Qred (x + y);
  f_mul x y := Qred (x * y);
  f_div x y := Qred (x / y);
  f_of_int z := inject_Z z;
  f_gtb := Q_gtb;
  float32 x := Qred x;
  int32 := wrap32;
|}.

Definition pow10 (e : Z) : Q :=
  if (0 <=? e)%Z then inject_Z (10 ^ e) else Qred (1 / inject_Z (10 ^ (- e))).

Fixpoint digits_loop (fuel : nat) (n : Z) : Z :=
  match fuel with
  | O => 1
  | S fuel' => if (n <? 10)%Z then 1 else 1 + digits_loop fuel' (n / 10)
  end.

(** The number of decimal digits of a positive integer. *)
Definition digits (n : Z) : Z := digits_loop (Z.to_nat (Z.log2 n)) n.

(** [floor (log10 x)] for positive [x]. *)
Definition floor_log10 (x : Q) : Z :=
  let e := digits (Qnum x) - digits (Zpos (Qden x)) in
  if Qle_bool (pow10 e) x then e else e - 1.

(** Rounding to the nearest integer, ties to the even one, as [round]. *)
Definition round_half_even (y : Q) : Z :=
  let f := Qfloor y in
  let r := Qred (y - inject_Z f) in
  match (r ?= 1 # 2)%Q with
  | Lt => f
  | Gt => f + 1
  | Eq => if Z.even f then f else f + 1
  end.

(** Modelled from the spec: [round_sig] of jupyter_cadquery.utils, which is
    not among the sources; [round_sig x n] rounds [x] to [n] significant
    decimal digits. *)
Definition round_sig_Q (x : Q) (n : Z) : Q :=
  if Qeq_bool x 0 then 0
  else
    let d := n - floor_log10 (Qabs x) - 1 in
    Qred (inject_Z (round_half_even (x * pow10 d)) * pow10 (- d)).

#[global] Instance Q_utils : Utils Q := {| round_sig := round_sig_Q |}.

Definition Q_sqrt (x : Q) : Q :=
  Qred (Z.sqrt (Qnum x * Zpos (Qden x)) # Qden x).

Definition Q_square_magnitude (v : XYZ Q) : Q :=
  let '(x, y, z) := v in Qred (x * x + y * y + z * z).

Definition Q_normalize (v : XYZ Q) : XYZ Q :=
  let '(x, y, z) := v in
  let d := Q_sqrt (Q_square_magnitude v) in
  (Qred (x / d), Qred (y / d), Qred (z / d)).

(** The stand-in mesher fails on a deflection that is not positive. *)
Definition Q_mesh (s : TopoDS_Shape Q) (quality : Q) (relative : bool)
    (angular_tolerance : Q) (parallel : bool) : Result (TopoDS_Shape Q) :=
  if Q_gtb quality 0 then Ok s else Raise (Standard_Failure "BRepMesh_IncrementalMesh").

Definition Q_compound (l : list (TopoDS_Shape Q)) : TopoDS_Shape Q :=
  {| HashCode := foldr (λ s acc, (HashCode s + 31 * acc) mod 2147483647) 17 l;
     Solids := l ≫= Solids;
     Faces := l ≫= Faces;
     Edges := l ≫= Edges |}.

(** The stand-in sampler: three points, the ends and the middle. *)
Definition Q_sample (c : BRepAdaptor_Curve Q) (deflection first last : Q)
    : GCPnts_QuasiUniformDeflection Q :=
  {| IsDone := Q_gtb deflection 0;
     NbPoints := 3;
     GCPnts_Parameter i :=
       Qred (first + (inject_Z (Z.of_nat i) - 1) * (last - first) / 2) |}.

#[global] Instance Q_kernel : OCP Q := {|
  gp_Vec_SquareMagnitude := Q_square_magnitude;
  gp_Vec_Normalize := Q_normalize;
  BRepTools_Clean_s s := s;
  BRepMesh_IncrementalMesh := Q_mesh;
  Compound_makeCompound := Q_compound;
  GCPnts_Initialize := Q_sample;
|}.

(** Sizes as CPython on a 64-bit machine reports them, ignoring payloads. *)
#[global] Instance Q_sys : Sys := {|
  sys_getsizeof obj :=
    match obj with
    | PDict _ => 232
    | PArray _ _ => 112
    | PSeq _ => 56
    | POther => 16
    end;
|}.

(** A triangulation given by its arrays. *)
Definition mk_poly (nodes : list (XYZ Q)) (tris : list (Z * Z * Z))
    (uv : option (list (Q * Q))) : Poly_Triangulation Q :=
  {| NbNodes := length nodes;
     Node i := nth (i - 1) nodes (0, 0, 0)%Q;
     NbTriangles := length tris;
     Triangle i := nth (i - 1) tris (0, 0, 0);
     HasUVNodes := bool_decide (is_Some uv);
     UVNode i := nth (i - 1) (default [] uv) (0, 0)%Q |}.

Definition mk_face (o : TopAbs_Orientation) (poly : Poly_Triangulation Q)
    : TopoDS_Face Q :=
  {| Orientation := o;
     Triangulation_s := Some (poly, λ p, p);
     BRepGProp_Face_Normal := λ _ _, (0, 0, 2)%Q |}.

(** The unit square in two triangles, with UV data. *)
Definition square : Poly_Triangulation Q :=
  mk_poly [(0, 0, 0); (1, 0, 0); (1, 1, 0); (0, 1, 0)]%Q [(1, 2, 3); (1, 3, 4)]
          (Some [(0, 0); (1, 0); (1, 1); (0, 1)]%Q).

(** One triangle, without UV data. *)
Definition triangle : Poly_Triangulation Q :=
  mk_poly [(0, 0, 1); (1, 0, 1); (0, 1, 1)]%Q [(1, 2, 3)] None.

Definition shape_of_faces (h : Z) (faces : list (TopoDS_Face Q)) : TopoDS_Shape Q :=
  {| HashCode := h; Solids := []; Faces := faces; Edges := [] |}.

(** A forward square followed by a reversed triangle. *)
Definition two_faces : TopoDS_Shape Q :=
  shape_of_faces 11 [mk_face TopAbs_FORWARD square; mk_face TopAbs_REVERSED triangle].

(** A single reversed triangle. *)
Definition reversed_triangle : TopoDS_Shape Q :=
  shape_of_faces 12 [mk_face TopAbs_REVERSED triangle].

(** The segment from (0,0,0) to (2,0,0). *)
Definition segment_curve : BRepAdaptor_Curve Q :=
  {| FirstParameter := 0%Q; LastParameter := 2%Q; Value u := (u, 0, 0)%Q |}.

Definition mk_edge (faces : list (TopoDS_Face Q))
    (poly : option Poly_PolygonOnTriangulation) : TopoDS_Edge Q :=
  {| FindFromKey := faces;
     PolygonOnTriangulation := λ _ _, poly;
     Curve := segment_curve |}.

(** An edge of the square running through its nodes 1, 2 and 3. *)
Definition square_edge : TopoDS_Edge Q :=
  mk_edge [mk_face TopAbs_FORWARD square]
          (Some (PolygonNode 3 (λ j, j))).

(** An internal square, which has UV nodes, followed by a reversed
    triangle. *)
Definition internal_first : TopoDS_Shape Q :=
  shape_of_faces 14 [mk_face TopAbs_INTERNAL square; mk_face TopAbs_REVERSED triangle].

(** The square with three edges: one without adjacent face, the edge
    through its nodes 1, 2 and 3, and one without polygon. *)
Definition three_edges : TopoDS_Shape Q :=
  {| HashCode := 15; Solids := [()];
     Faces := [mk_face TopAbs_FORWARD square];
     Edges := [mk_edge [] None; square_edge;
               mk_edge [mk_face TopAbs_FORWARD square] None] |}.

(** Two faces, twice, at a positive quality; with a second shape in the
    list; with [debug] and [progress] given by keyword; at quality 0. *)
Definition call_plain : Call Q :=
  {| c_shapes := [two_faces]; c_quality := (1 # 100)%Q;
     c_angular_tolerance := (1 # 5)%Q; c_args := [true; true]; c_kwargs := ∅ |}.

Definition call_longer : Call Q :=
  {| c_shapes := [two_faces; reversed_triangle]; c_quality := (1 # 100)%Q;
     c_angular_tolerance := (1 # 5)%Q; c_args := [true; true]; c_kwargs := ∅ |}.

Definition call_debug : Call Q :=
  {| c_shapes := [two_faces]; c_quality := (1 # 100)%Q;
     c_angular_tolerance := (1 # 5)%Q; c_args := [true; true];
     c_kwargs := <["debug" := true]> (<["progress" := false]> ∅) |}.

Definition call_failing : Call Q :=
  {| c_shapes := [two_faces]; c_quality := 0%Q;
     c_angular_tolerance := (1 # 5)%Q; c_args := []; c_kwargs := ∅ |}.

(** Two solids sharing the square face, with its edge. *)
Definition square_shape : TopoDS_Shape Q :=
  {| HashCode := 13; Solids := [(); ()];
     Faces := [mk_face TopAbs_FORWARD square]; Edges := [square_edge] |}.

(** The square shape with default flags; no shape at all; the two faces at
    a coarser quality. *)
Definition call_square : Call Q :=
  {| c_shapes := [square_shape]; c_quality := (1 # 100)%Q;
     c_angular_tolerance := (1 # 5)%Q; c_args := []; c_kwargs := ∅ |}.

(** The shape that starts with the internal square, with default flags. *)
Definition call_internal : Call Q :=
  {| c_shapes := [internal_first]; c_quality := (1 # 100)%Q;
     c_angular_tolerance := (1 # 5)%Q; c_args := []; c_kwargs := ∅ |}.

Definition call_no_shapes : Call Q :=
  {| c_shapes := []; c_quality := (1 # 100)%Q;
     c_angular_tolerance := (1 # 5)%Q; c_args := []; c_kwargs := ∅ |}.

Definition call_coarse : Call Q :=
  {| c_shapes := [two_faces]; c_quality := (1 # 10)%Q;
     c_angular_tolerance := (1 # 5)%Q; c_args := [true; true]; c_kwargs := ∅ |}.

(** An interpreter that reports a given size for a dict and nothing for
    the rest; with 2^26 two results do not fit the cache together, with
    2^28 not even one does. *)
Definition Sys_of (dict_size : Z) : Sys :=
  {| sys_getsizeof obj := match obj with PDict _ => dict_size | _ => 0 end |}.

(** The unit box with one more key. *)
Definition unit_box_tagged : gmap string Q := <["level" := 7%Q]> unit_box.

(** The mesh of the two faces. *)
Definition two_faces_mesh : MeshResult Q :=
  {| vertices := [0; 0; 0; 1; 0; 0; 1; 1; 0; 0; 1; 0; 0; 0; 1; 1; 0; 1; 0; 1; 1]%Q;
     triangles := [0; 1; 2; 0; 2; 3; 4; 6; 5];
     normals := [0; 0; 1; 0; 0; 1; 0; 0; 1; 0; 0; 1]%Q;
     edges := [] |}.

(** The faces of the square shape, without its edges. *)
Definition square_faces_mesh : MeshResult Q :=
  {| vertices := [0; 0; 0; 1; 0; 0; 1; 1; 0; 0; 1; 0]%Q;
     triangles := [0; 1; 2; 0; 2; 3];
     normals := [0; 0; 1; 0; 0; 1; 0; 0; 1; 0; 0; 1]%Q;
     edges := [] |}.

Definition key_plain : Key Q := (11, (1 # 100)%Q, (1 # 5)%Q, true, true).

Definition key_coarse : Key Q := (11, (1 # 10)%Q, (1 # 5)%Q, true, true).

End Exact.


(** * Properties *)

Section Mesh_extraction.
Import Tessellator.
Context {F : Type} `{!Float64 F, !OCP F}.
Implicit Types (faces : list (TopoDS_Face F)) (face : TopoDS_Face F).
Implicit Types (st : buffers F) (poly : Poly_Triangulation F).

Lemma length_flat_map_const {A B} (f : A → list B) (n : nat) (l : list A) :
  (∀ a, length (f a) = n) → length (flat_map f l) = (n * length l)%nat.
Proof.
  intros Hf. induction l as [|a l IH]; simpl; [lia|].
  rewrite length_app, Hf, IH. lia.
Qed.

Lemma length_Coord (p : XYZ F) : length (Coord p) = 3%nat.
Proof. by destruct p as [[x y] z]. Qed.

Lemma node_normal_internal face poly i :
  node_normal face poly true i = Raise AttributeError.
Proof. unfold node_normal. by destruct (UVNode poly i). Qed.

Lemma node_normal_not_internal face poly i :
  node_normal face poly false i = Ok (normal_coords face poly i).
Proof. unfold normal_coords, node_normal. by destruct (UVNode poly i). Qed.

Lemma length_normal_coords face poly i : length (normal_coords face poly i) = 3%nat.
Proof.
  unfold normal_coords, node_normal. destruct (UVNode poly i) as [u v].
  apply length_Coord.
Qed.

Lemma mapM_node_normal face poly (internal : bool) (l : list nat) :
  mapM (node_normal face poly internal) l
  = if internal && bool_decide (l ≠ []) then Raise AttributeError
    else Ok (map (normal_coords face poly) l).
Proof.
  destruct internal; cbn [andb].
  - destruct l as [|i l]; [done|]. cbn [mapM]. by rewrite node_normal_internal.
  - induction l as [|i l IH]; [done|]. cbn [mapM].
    by rewrite node_normal_not_internal, IH.
Qed.

Lemma noraise_existsb faces :
  Forall (λ face, raises_at_normals face = false) faces
  ↔ existsb raises_at_normals faces = false.
Proof.
  induction faces as [|face faces IH]; cbn [existsb]; [by split|].
  rewrite Forall_cons, orb_false_iff, IH. done.
Qed.

(** The loop body, case by case. *)
Lemma tessellate_face_eq st face :
  tessellate_face st face
  = match Triangulation_s face with
    | Some (poly, loc) =>
        let vertices :=
          b_vertices st
          ++ flat_map (λ i, Coord (Transformed (Node poly i) loc))
                      (seq 1 (NbNodes poly)) in
        let triangles :=
          b_triangles st
          ++ (if decide (Orientation face = TopAbs_REVERSED)
              then face_triangles poly 2 1 (offset st)
              else face_triangles poly 1 2 (offset st)) in
        if raises_at_normals face
        then ({| b_vertices := vertices; b_triangles := triangles;
                 b_normals := b_normals st; offset := offset st |},
              Some AttributeError)
        else ({| b_vertices := vertices; b_triangles := triangles;
                 b_normals :=
                   b_normals st
                   ++ (if HasUVNodes poly
                       then flat_map (normal_coords face poly) (seq 1 (NbNodes poly))
                       else []);
                 offset := offset st + Z.of_nat (NbNodes poly) |}, None)
    | None => (st, None)
    end.
Proof.
  unfold tessellate_face, raises_at_normals.
  destruct (Triangulation_s face) as [[poly loc]|]; [|by destruct (decide _)].
  rewrite mapM_node_normal.
  assert (bool_decide (seq 1 (NbNodes poly) ≠ []) = bool_decide (0 < NbNodes poly)%nat)
    as -> by (apply bool_decide_ext; destruct (NbNodes poly); cbn; split; intros;
              (lia || done)).
  destruct (decide _); destruct (HasUVNodes poly);
    destruct (bool_decide (Orientation face = TopAbs_INTERNAL));
    destruct (bool_decide (0 < NbNodes poly)%nat); cbn [andb];
    by rewrite ?app_nil_r, ?flat_map_concat_map.
Qed.

(** One pass through the loop body, buffer by buffer. *)
Lemma tessellate_face_vertices st face :
  length (b_vertices (tessellate_face st face).1)
  = (length (b_vertices st) + 3 * face_nodes face)%nat.
Proof.
  rewrite tessellate_face_eq. unfold face_nodes.
  destruct (Triangulation_s face) as [[poly loc]|]; cbn [fst]; [|lia].
  cbv zeta. destruct (raises_at_normals face); cbn [fst b_vertices].
  all: rewrite length_app, (length_flat_map_const _ 3), length_seq;
    [lia | intros; apply length_Coord].
Qed.

Lemma tessellate_face_raised st face :
  (tessellate_face st face).2
  = if raises_at_normals face then Some AttributeError else None.
Proof.
  rewrite tessellate_face_eq.
  destruct (Triangulation_s face) as [[poly loc]|] eqn:Ht.
  - cbv zeta. by destruct (raises_at_normals face).
  - unfold raises_at_normals. by rewrite Ht.
Qed.

Lemma tessellate_face_normals st face :
  raises_at_normals face = false →
  length (b_normals (tessellate_face st face).1)
  = (length (b_normals st) + 3 * face_uv_nodes face)%nat.
Proof.
  intros Hr. rewrite tessellate_face_eq, Hr. unfold face_uv_nodes.
  destruct (Triangulation_s face) as [[poly loc]|]; cbn [fst b_normals]; [|lia].
  rewrite length_app. destruct (HasUVNodes poly); [|cbn; lia].
  rewrite (length_flat_map_const _ 3), length_seq;
    [lia | intros; apply length_normal_coords].
Qed.

Lemma tessellate_face_offset st face :
  raises_at_normals face = false →
  offset (tessellate_face st face).1 = offset st + Z.of_nat (face_nodes face).
Proof.
  intros Hr. rewrite tessellate_face_eq, Hr. unfold face_nodes.
  destruct (Triangulation_s face) as [[poly loc]|]; cbn [fst offset]; lia.
Qed.

(** The triangles a face appends, read off the loop body. *)
Lemma tessellate_face_triangles st face :
  b_triangles (tessellate_face st face).1
  = b_triangles st ++
    match Triangulation_s face with
    | Some (poly, _) =>
        if decide (Orientation face = TopAbs_REVERSED)
        then face_triangles poly 2 1 (offset st)
        else face_triangles poly 1 2 (offset st)
    | None => []
    end.
Proof.
  rewrite tessellate_face_eq.
  destruct (Triangulation_s face) as [[poly loc]|]; [|by rewrite app_nil_r].
  cbv zeta. by destruct (raises_at_normals face).
Qed.

(** One pass of the loop body only appends to the three buffers. *)
Lemma tessellate_face_extends st face :
  b_vertices st `prefix_of` b_vertices (tessellate_face st face).1
  ∧ b_triangles st `prefix_of` b_triangles (tessellate_face st face).1
  ∧ b_normals st `prefix_of` b_normals (tessellate_face st face).1.
Proof.
  rewrite tessellate_face_eq.
  destruct (Triangulation_s face) as [[poly loc]|]; [|done].
  cbv zeta. destruct (raises_at_normals face); cbn [fst b_vertices b_triangles b_normals];
    split_and!; first [done | by apply prefix_app_r].
Qed.

Lemma tessellate_faces_app faces faces' st :
  tessellate_faces (faces ++ faces') st
  = match tessellate_faces faces st with
    | (st', None) => tessellate_faces faces' st'
    | (st', Some e) => (st', Some e)
    end.
Proof.
  revert st. induction faces as [|face faces IH]; intros st; [done|].
  cbn [app tessellate_faces]. destruct (tessellate_face st face) as [st' [e|]]; [done|].
  apply IH.
Qed.

Lemma tessellate_faces_raised faces st :
  (tessellate_faces faces st).2
  = if existsb raises_at_normals faces then Some AttributeError else None.
Proof.
  revert st. induction faces as [|face faces IH]; intros st; [done|].
  cbn [tessellate_faces existsb]. pose proof (tessellate_face_raised st face) as Hr.
  destruct (tessellate_face st face) as [st' [e|]]; cbn [snd] in Hr.
  - destruct (raises_at_normals face); [by rewrite Hr|done].
  - destruct (raises_at_normals face); [done|]. apply IH.
Qed.

Lemma tessellate_raised_take faces k :
  tessellate_raised (take k faces)
  = if existsb raises_at_normals (take k faces) then Some AttributeError else None.
Proof. apply tessellate_faces_raised. Qed.

Lemma tessellate_faces_extends faces st :
  b_vertices st `prefix_of` b_vertices (tessellate_faces faces st).1
  ∧ b_triangles st `prefix_of` b_triangles (tessellate_faces faces st).1
  ∧ b_normals st `prefix_of` b_normals (tessellate_faces faces st).1.
Proof.
  revert st. induction faces as [|face faces IH]; intros st; [done|].
  cbn [tessellate_faces].
  destruct (tessellate_face_extends st face) as (Hv' & Ht' & Hn').
  destruct (tessellate_face st face) as [st' [e|]]; [done|].
  destruct (IH st') as (Hv & Ht & Hn). cbn [fst] in *.
  split_and!; by etrans.
Qed.

Lemma tessellate_loop_snoc faces face :
  tessellate_raised faces = None →
  tessellate_loop (faces ++ [face]) = (tessellate_face (tessellate_loop faces) face).1.
Proof.
  unfold tessellate_raised, tessellate_loop. intros Hr.
  rewrite tessellate_faces_app.
  destruct (tessellate_faces faces buffers0) as [st [e|]]; [done|].
  cbn [tessellate_faces fst]. by destruct (tessellate_face st face) as [st' [e|]].
Qed.

Lemma tessellate_loop_left faces faces' :
  tessellate_raised faces ≠ None →
  tessellate_loop (faces ++ faces') = tessellate_loop faces.
Proof.
  unfold tessellate_raised, tessellate_loop. intros Hr.
  rewrite tessellate_faces_app.
  by destruct (tessellate_faces faces buffers0) as [st [e|]].
Qed.

Lemma after_S faces i face :
  faces !! i = Some face → tessellate_raised (take i faces) = None →
  after faces (S i) = (tessellate_face (after faces i) face).1.
Proof.
  intros Hi Hr. unfold after. rewrite (take_S_r _ _ _ Hi).
  by apply tessellate_loop_snoc.
Qed.

Lemma after_S_left faces i :
  tessellate_raised (take i faces) ≠ None → after faces (S i) = after faces i.
Proof.
  intros Hr. unfold after. destruct (faces !! i) as [face|] eqn:Hi.
  - rewrite (take_S_r _ _ _ Hi). by apply tessellate_loop_left.
  - apply lookup_ge_None in Hi. by rewrite !take_ge by lia.
Qed.

Lemma tessellate_loop_after faces k :
  tessellate_loop faces = (tessellate_faces (drop k faces) (after faces k)).1
  ∨ tessellate_loop faces = after faces k.
Proof.
  pose proof (tessellate_faces_app (take k faces) (drop k faces) buffers0) as Happ.
  rewrite take_drop in Happ. unfold after, tessellate_loop. rewrite Happ.
  destruct (tessellate_faces (take k faces) buffers0) as [st [e|]]; [by right|by left].
Qed.

Lemma after_prefix faces k :
  b_vertices (after faces k) `prefix_of` b_vertices (tessellate_loop faces)
  ∧ b_triangles (after faces k) `prefix_of` b_triangles (tessellate_loop faces)
  ∧ b_normals (after faces k) `prefix_of` b_normals (tessellate_loop faces).
Proof.
  destruct (tessellate_loop_after faces k) as [-> | ->]; [|done].
  apply tessellate_faces_extends.
Qed.

Lemma after_after faces k k' :
  (k ≤ k')%nat → after (take k' faces) k = after faces k.
Proof. intros Hk. unfold after. by rewrite take_take, Nat.min_l. Qed.

(** What the loop has accumulated once a list of faces is processed
    without exception. *)
Lemma tessellate_loop_counts faces :
  Forall (λ face, raises_at_normals face = false) faces →
  let st := tessellate_loop faces in
  length (b_vertices st) = (3 * sum_list_with face_nodes faces)%nat
  ∧ length (b_normals st) = (3 * sum_list_with face_uv_nodes faces)%nat
  ∧ offset st = Z.of_nat (sum_list_with face_nodes faces) - 1.
Proof.
  induction faces as [|face faces IH] using rev_ind; [done|].
  rewrite Forall_app, Forall_singleton. intros [Hall Hface].
  cbv zeta in *. destruct (IH Hall) as (Hv & Hn & Ho).
  rewrite tessellate_loop_snoc, !sum_list_with_app
    by (unfold tessellate_raised; rewrite tessellate_faces_raised;
        by rewrite (proj1 (noraise_existsb _) Hall)).
  rewrite tessellate_face_vertices, tessellate_face_normals, tessellate_face_offset
    by done.
  rewrite Hv, Hn, Ho. cbn [sum_list_with]. lia.
Qed.

(** The vertex buffer always holds whole vertices. *)
Lemma tessellate_faces_vertices faces st :
  ∃ m, length (b_vertices (tessellate_faces faces st).1)
       = (length (b_vertices st) + 3 * m)%nat.
Proof.
  revert st. induction faces as [|face faces IH]; intros st; [exists 0%nat; cbn; lia|].
  cbn [tessellate_faces]. pose proof (tessellate_face_vertices st face) as Hv.
  destruct (tessellate_face st face) as [st' [e|]]; cbn [fst] in *.
  - eexists. exact Hv.
  - destruct (IH st') as [m Hm]. exists (face_nodes face + m)%nat. lia.
Qed.

Lemma vertex_count_exact faces :
  length (b_vertices (tessellate_loop faces))
  = (3 * vertex_count (b_vertices (tessellate_loop faces)))%nat.
Proof.
  unfold vertex_count, tessellate_loop.
  destruct (tessellate_faces_vertices faces buffers0) as [m ->]. cbn [buffers0 b_vertices length].
  rewrite Nat.add_0_l, Nat.mul_comm, Nat.div_mul by done. lia.
Qed.

Lemma vertex_count_loop faces :
  Forall (λ face, raises_at_normals face = false) faces →
  vertex_count (b_vertices (tessellate_loop faces)) = sum_list_with face_nodes faces.
Proof.
  intros Hall. pose proof (vertex_count_exact faces) as He.
  destruct (tessellate_loop_counts faces Hall) as (Hv & _). lia.
Qed.

Lemma vertex_count_after_mono faces k k' :
  (k ≤ k')%nat →
  (vertex_count (b_vertices (after faces k))
   ≤ vertex_count (b_vertices (after faces k')))%nat.
Proof.
  intros Hk. rewrite <- (after_after faces k k' Hk).
  destruct (after_prefix (take k' faces) k) as (Hv & _).
  apply prefix_length in Hv. fold (after faces k') in Hv.
  pose proof (vertex_count_exact (take k (take k' faces))) as H1.
  pose proof (vertex_count_exact (take k' faces)) as H2.
  unfold after in *. lia.
Qed.

(** What is emitted while face number [i] is processed: nothing when the
    loop was left before, and the triangles of the face otherwise. *)
Lemma emitted_lookup faces i face :
  faces !! i = Some face →
  emitted faces i
  = if existsb raises_at_normals (take i faces) then []
    else match Triangulation_s face with
         | Some (poly, _) =>
             if decide (Orientation face = TopAbs_REVERSED)
             then face_triangles poly 2 1 (offset (after faces i))
             else face_triangles poly 1 2 (offset (after faces i))
         | None => []
         end.
Proof.
  intros Hi. unfold emitted.
  pose proof (tessellate_raised_take faces i) as Hr.
  destruct (existsb raises_at_normals (take i faces)).
  - rewrite after_S_left by (by rewrite Hr). apply drop_all.
  - rewrite (after_S _ _ _ Hi Hr), tessellate_face_triangles. apply drop_app_length.
Qed.

(** The triangle buffer is the concatenation of what the faces emit. *)
Lemma triangles_emitted faces :
  b_triangles (tessellate_loop faces)
  = concat (map (emitted faces) (seq 0 (length faces))).
Proof.
  induction faces as [|face faces IH] using rev_ind; [done|].
  rewrite length_app, Nat.add_comm. cbn [length plus].
  rewrite seq_S, map_app, concat_app. cbn [map concat plus]. rewrite app_nil_r.
  assert (Hpre : concat (map (emitted (faces ++ [face])) (seq 0 (length faces)))
                 = b_triangles (tessellate_loop faces)).
  { rewrite IH. f_equal. apply map_ext_in. intros i Hi%in_seq.
    unfold emitted, after. by rewrite !take_app_le by lia. }
  rewrite Hpre. unfold emitted, after.
  rewrite take_app_length, firstn_all2 by (rewrite length_app; cbn; lia).
  destruct (after_prefix (faces ++ [face]) (length faces)) as (_ & [rest Hrest] & _).
  unfold after in Hrest. rewrite take_app_length in Hrest.
  by rewrite Hrest, drop_app_length.
Qed.

Lemma valid_triangle_get n coord k :
  valid_triangle n coord → 1 ≤ coord_get coord k ≤ Z.of_nat n.
Proof.
  destruct coord as [[n0 n1] n2]. unfold valid_triangle.
  rewrite !andb_True, !bool_decide_spec. intros [[H0 H1] H2].
  destruct k as [|[|k]]; done.
Qed.

Lemma face_triangles_range poly i1 i2 off idx :
  valid_triangulation poly → idx ∈ face_triangles poly i1 i2 off →
  off + 1 ≤ idx ≤ off + Z.of_nat (NbNodes poly).
Proof.
  unfold valid_triangulation, face_triangles. intros Hv Hin.
  apply list_elem_of_In, in_flat_map in Hin as (i & Hi & Hin).
  apply Is_true_eq_true in Hv. rewrite forallb_forall in Hv.
  specialize (Hv i Hi). apply Is_true_eq_left in Hv.
  pose proof (valid_triangle_get _ _ 0 Hv).
  pose proof (valid_triangle_get _ _ i1 Hv).
  pose proof (valid_triangle_get _ _ i2 Hv).
  cbn in Hin. intuition subst; lia.
Qed.

Lemma vertex_count_after_S faces i face :
  faces !! i = Some face → tessellate_raised (take i faces) = None →
  vertex_count (b_vertices (after faces (S i)))
  = (vertex_count (b_vertices (after faces i)) + face_nodes face)%nat.
Proof.
  intros Hi Hr.
  pose proof (vertex_count_exact (take (S i) faces)) as H1.
  pose proof (vertex_count_exact (take i faces)) as H2.
  fold (after faces (S i)) in H1. fold (after faces i) in H2.
  rewrite (after_S _ _ _ Hi Hr) in *.
  rewrite tessellate_face_vertices in H1. lia.
Qed.

Lemma offset_after faces k :
  tessellate_raised (take k faces) = None →
  offset (after faces k)
  = Z.of_nat (vertex_count (b_vertices (after faces k))) - 1.
Proof.
  rewrite tessellate_raised_take. intros Hr.
  assert (Hall : Forall (λ face, raises_at_normals face = false) (take k faces)).
  { apply noraise_existsb. by destruct (existsb _ _). }
  unfold after. rewrite (vertex_count_loop _ Hall).
  by apply tessellate_loop_counts.
Qed.

(** A valid face only emits indices of the vertices it appended itself. *)
Lemma emitted_own_range faces i idx :
  Forall valid_face faces →
  idx ∈ emitted faces i → appended_by faces i idx.
Proof.
  intros Hvalid Hin. destruct (faces !! i) as [face|] eqn:Hi.
  - rewrite (emitted_lookup _ _ _ Hi) in Hin.
    pose proof (tessellate_raised_take faces i) as Hr.
    destruct (existsb raises_at_normals (take i faces)); [by apply elem_of_nil in Hin|].
    unfold appended_by. rewrite (vertex_count_after_S _ _ _ Hi Hr).
    rewrite (offset_after _ _ Hr) in Hin.
    pose proof (proj1 (Forall_lookup _ _) Hvalid _ _ Hi) as Hv.
    unfold valid_face, face_nodes in *.
    destruct (Triangulation_s face) as [[poly loc]|]; [|by apply elem_of_nil in Hin].
    destruct (decide _); apply face_triangles_range in Hin; try done; lia.
  - apply lookup_ge_None in Hi. unfold emitted, after in Hin.
    rewrite !take_ge, drop_all in Hin by lia. by apply elem_of_nil in Hin.
Qed.

(** Every index in the triangle buffer is below the number of vertices in
    the vertex buffer, whether the loop ran to its end or was left. *)
Lemma triangles_in_range faces idx :
  Forall valid_face faces →
  idx ∈ b_triangles (tessellate_loop faces) →
  0 ≤ idx < Z.of_nat (vertex_count (b_vertices (tessellate_loop faces))).
Proof.
  intros Hvalid Hin. rewrite triangles_emitted in Hin.
  apply list_elem_of_In, in_concat in Hin as (l & Hl & Hidx).
  apply in_map_iff in Hl as (i & <- & Hi%in_seq).
  apply list_elem_of_In, emitted_own_range in Hidx; [|done].
  unfold appended_by in Hidx.
  pose proof (vertex_count_after_mono faces (S i) (length faces) ltac:(lia)) as Hm.
  unfold after in Hm at 2. rewrite firstn_all in Hm. lia.
Qed.

(** What [tessellate] returns. *)
Lemma tessellate_eq (self : t F) (s : TopoDS_Shape F) :
  shape self = Some s →
  tessellate self
  = if existsb raises_at_normals (get_faces s) then Raise AttributeError
    else let st := tessellate_loop (get_faces s) in
         Ok (set_buffers self (b_vertices st) (b_triangles st) (b_normals st)).
Proof.
  intros Hs. unfold tessellate, tessellate_loop. rewrite Hs.
  pose proof (tessellate_faces_raised (get_faces s) buffers0) as Hr.
  destruct (tessellate_faces (get_faces s) buffers0) as [st [e|]]; cbn [snd fst] in *.
  - by destruct (existsb _ _); [injection Hr as ->|].
  - by destruct (existsb _ _).
Qed.

(** What [tessellate] returns are the buffers the loop leaves. *)
Lemma tessellate_Ok_buffers (self self' : t F) (s : TopoDS_Shape F) :
  shape self = Some s → tessellate self = Ok self' →
  Forall (λ face, raises_at_normals face = false) (get_faces s)
  ∧ vertices self' = b_vertices (tessellate_loop (get_faces s))
  ∧ triangles self' = b_triangles (tessellate_loop (get_faces s))
  ∧ normals self' = b_normals (tessellate_loop (get_faces s)).
Proof.
  intros Hs. rewrite (tessellate_eq self s Hs).
  destruct (existsb raises_at_normals (get_faces s)) eqn:Hex; [done|].
  intros [= <-]. by apply noraise_existsb in Hex.
Qed.

Lemma face_triangles_length poly i1 i2 off :
  length (face_triangles poly i1 i2 off) = (3 * NbTriangles poly)%nat.
Proof. unfold face_triangles. by rewrite (length_flat_map_const _ 3), length_seq. Qed.

Lemma triangle_count_loop faces :
  Forall (λ face, raises_at_normals face = false) faces →
  length (b_triangles (tessellate_loop faces))
  = (3 * sum_list_with face_triangle_count faces)%nat.
Proof.
  induction faces as [|face faces IH] using rev_ind; [done|].
  rewrite Forall_app, Forall_singleton. intros [Hall Hface].
  rewrite tessellate_loop_snoc
    by (unfold tessellate_raised; rewrite tessellate_faces_raised;
        by rewrite (proj1 (noraise_existsb _) Hall)).
  rewrite tessellate_face_triangles, length_app, IH by done.
  rewrite sum_list_with_app. cbn [sum_list_with]. unfold face_triangle_count.
  destruct (Triangulation_s face) as [[poly loc]|]; [|cbn; lia].
  destruct (decide _); rewrite face_triangles_length; lia.
Qed.

(** C1 (offset correctness).  When the triangulations are the kernel's
    (each triangle names nodes between 1 and [NbNodes]): [tessellate]
    returns unless the loop over the normals of a face raises; every index
    in the triangle buffer it returns lies in [0, total vertex count), and
    so does every index in the buffer whenever the loop ends or is left; no
    index emitted while face [i] is processed is the index of a vertex
    appended while a later face [j] is processed; as long as no exception
    was raised the running offset is the number of vertices appended so
    far, minus 1. *)
Theorem offset_correctness (self : t F) (s : TopoDS_Shape F) :
  shape self = Some s →
  Forall valid_face (get_faces s) →
  let faces := get_faces s in
  (Forall (λ face, raises_at_normals face = false) faces →
   ∃ self', tessellate self = Ok self')
  ∧ (existsb raises_at_normals faces = true → tessellate self = Raise AttributeError)
  ∧ (∀ self', tessellate self = Ok self' →
       ∀ idx, idx ∈ triangles self' →
         0 ≤ idx < Z.of_nat (vertex_count (vertices self')))
  ∧ (∀ idx, idx ∈ b_triangles (tessellate_loop faces) →
       0 ≤ idx < Z.of_nat (vertex_count (b_vertices (tessellate_loop faces))))
  ∧ (∀ i j idx, (i < j < length faces)%nat →
       idx ∈ emitted faces i → ¬ appended_by faces j idx)
  ∧ (∀ k, tessellate_raised (take k faces) = None →
       offset (after faces k)
       = Z.of_nat (vertex_count (b_vertices (after faces k))) - 1).
Proof.
  intros Hs Hvalid faces. pose proof (tessellate_eq self s Hs) as Heq. fold faces in Heq.
  split_and!.
  - intros Hall%noraise_existsb. rewrite Heq, Hall. by eexists.
  - intros Hex. by rewrite Heq, Hex.
  - intros self' Hok idx. rewrite Heq in Hok.
    destruct (existsb raises_at_normals faces); [done|]. injection Hok as <-.
    cbn [triangles vertices set_buffers]. by apply triangles_in_range.
  - intros idx. by apply triangles_in_range.
  - intros i j idx Hij Hin Hj. apply emitted_own_range in Hin; [|done].
    unfold appended_by in *.
    pose proof (vertex_count_after_mono faces (S i) j ltac:(lia)). lia.
  - intros k. apply offset_after.
Qed.

(** C2, as amended (normals alignment).  [tessellate] returns when no face
    makes the loop over the normals raise; and whenever it returns, the
    normals buffer holds three coordinates for every node of every face
    whose triangulation has UV nodes and nothing for the other faces: it is
    never longer than the vertex buffer, as long as it when every face has
    as many UV nodes as nodes, and empty when no face has UV nodes. *)
Theorem normals_alignment (self : t F) (s : TopoDS_Shape F) :
  shape self = Some s →
  (Forall (λ face, raises_at_normals face = false) (get_faces s) →
   ∃ self', tessellate self = Ok self')
  ∧ ∀ self', tessellate self = Ok self' →
      length (normals self') = (3 * sum_list_with face_uv_nodes (get_faces s))%nat
      ∧ length (vertices self') = (3 * sum_list_with face_nodes (get_faces s))%nat
      ∧ (length (normals self') ≤ length (vertices self'))%nat
      ∧ (Forall (λ face, face_uv_nodes face = face_nodes face) (get_faces s) →
         length (normals self') = length (vertices self'))
      ∧ (Forall (λ face, face_uv_nodes face = 0%nat) (get_faces s) →
         length (normals self') = 0%nat).
Proof.
  intros Hs. rewrite (tessellate_eq self s Hs). split.
  { intros Hall. rewrite (proj1 (noraise_existsb _) Hall). by eexists. }
  intros self'. destruct (existsb raises_at_normals (get_faces s)) eqn:Hex; [done|].
  apply noraise_existsb in Hex as Hall. intros [= <-].
  cbn [normals vertices set_buffers].
  destruct (tessellate_loop_counts (get_faces s) Hall) as (Hv & Hn & _).
  rewrite Hv, Hn. clear Hv Hn Hall Hex. split_and!; try done.
  - apply Nat.mul_le_mono_l.
    induction (get_faces s) as [|face faces IH]; [done|]. cbn [sum_list_with].
    assert (face_uv_nodes face ≤ face_nodes face)%nat; [|lia].
    unfold face_uv_nodes, face_nodes.
    destruct (Triangulation_s face) as [[poly loc]|]; [|done].
    destruct (HasUVNodes poly); lia.
  - intros Hall. f_equal.
    induction Hall as [|face faces Hf _ IH]; [done|]. cbn [sum_list_with]. lia.
  - intros Hall. cut (sum_list_with face_uv_nodes (get_faces s) = 0%nat); [lia|].
    induction Hall as [|face faces Hf _ IH]; [done|]. cbn [sum_list_with]. lia.
Qed.

(** C3 (winding).  The indices emitted while a face is processed (a face
    the loop reaches: no face before it made the loop over the normals
    raise) are the triangles of the face in the kernel's order, each index
    shifted by the running offset (the number of vertices of the faces
    before, minus 1), with the second and third index exchanged exactly when
    the face is reversed; and when no face of the shape makes that loop
    raise, [tessellate] returns and the part of its triangle buffer that
    belongs to the face (three indices per triangle, after those of the
    faces before) holds exactly these indices. *)
Theorem winding_invariant (self : t F) (s : TopoDS_Shape F) (i : nat)
    (face : TopoDS_Face F) (poly : Poly_Triangulation F) (loc : gp_Trsf F) :
  shape self = Some s →
  get_faces s !! i = Some face →
  Triangulation_s face = Some (poly, loc) →
  Forall (λ f, raises_at_normals f = false) (take i (get_faces s)) →
  let faces := get_faces s in
  let off := Z.of_nat (sum_list_with face_nodes (take i faces)) - 1 in
  let wound :=
    flat_map (λ k, let '(n0, n1, n2) := Triangle poly k in
                   if decide (Orientation face = TopAbs_REVERSED)
                   then [n0 + off; n2 + off; n1 + off]
                   else [n0 + off; n1 + off; n2 + off])
             (seq 1 (NbTriangles poly)) in
  emitted faces i = wound
  ∧ (Forall (λ f, raises_at_normals f = false) faces →
     ∃ self', tessellate self = Ok self'
       ∧ take (3 * NbTriangles poly)
              (drop (3 * sum_list_with face_triangle_count (take i faces))
                    (triangles self'))
         = wound).
Proof.
  intros Hs Hi Hpoly Hbefore faces off wound. fold faces in Hbefore, Hi.
  assert (Hem : emitted faces i = wound).
  { rewrite (emitted_lookup _ _ _ Hi), (proj1 (noraise_existsb _) Hbefore), Hpoly.
    rewrite offset_after
      by (rewrite tessellate_raised_take; by rewrite (proj1 (noraise_existsb _) Hbefore)).
    unfold after. rewrite (vertex_count_loop _ Hbefore). fold off.
    unfold face_triangles, wound.
    destruct (decide _); apply flat_map_ext; intros k;
      by destruct (Triangle poly k) as [[n0 n1] n2]. }
  split; [done|]. intros Hall.
  rewrite (tessellate_eq self s Hs). fold faces.
  rewrite (proj1 (noraise_existsb _) Hall).
  eexists. split; [reflexivity|]. cbn [triangles set_buffers].
  destruct (after_prefix faces (S i)) as (_ & [rest ->] & _).
  assert (b_triangles (after faces (S i)) = b_triangles (after faces i) ++ wound) as ->.
  { rewrite <- Hem. unfold emitted.
    destruct (after_prefix (take (S i) faces) i) as (_ & [e He] & _).
    rewrite after_after in He by lia. fold (after faces (S i)) in He.
    by rewrite He, drop_app_length. }
  pose proof (triangle_count_loop _ Hbefore) as Hlen. fold (after faces i) in Hlen.
  rewrite <- Hlen, <- app_assoc, drop_app_length.
  apply take_app_length'. unfold wound.
  rewrite (length_flat_map_const _ 3), length_seq; [done|].
  intros k. destruct (Triangle poly k) as [[n0 n1] n2]. by destruct (decide _).
Qed.
End Mesh_extraction.

Section Edge_extraction.
Import Tessellator.
Context {F : Type} `{!Float64 F, !OCP F}.

Lemma length_py_range a b : length (py_range a b) = Z.to_nat (b - a).
Proof. unfold py_range. by rewrite length_map, length_seq. Qed.

Lemma length_polygon_indices (poly : Poly_PolygonOnTriangulation) :
  length (polygon_indices poly) = polygon_size poly.
Proof.
  destruct poly as [n node|lower upper value]; cbn [polygon_indices polygon_size].
  - by rewrite length_map, length_seq.
  - rewrite length_map, length_py_range. f_equal. lia.
Qed.

Lemma length_consecutive {A} (l : list A) :
  length (consecutive l) = (length l - 1)%nat.
Proof.
  unfold consecutive. rewrite length_zip.
  destruct l as [|a l]; cbn [tail length]; lia.
Qed.

(** The inner loop of [compute_edges], whatever [v1] holds on entry. *)
Lemma fold_edge_step (triangle : Poly_Triangulation F) (transf : gp_Trsf F)
    (idxs : list nat) (edges : list (XYZ F * XYZ F)) (v1 : option (XYZ F)) :
  fst (fold_left (edge_step triangle transf) idxs (edges, v1))
  = edges ++ consecutive (option_list v1
                          ++ map (λ idx, Transformed (Node triangle idx) transf) idxs).
Proof.
  revert edges v1. induction idxs as [|idx idxs IH]; intros edges v1.
  - destruct v1; cbn; by rewrite app_nil_r.
  - cbn [fold_left edge_step]. rewrite IH.
    destruct v1 as [p|]; cbn; [by rewrite <- app_assoc|done].
Qed.

Lemma compute_edges_edge_app (acc : list (XYZ F * XYZ F)) (edge : TopoDS_Edge F) :
  compute_edges_edge acc edge = acc ++ compute_edges_edge [] edge.
Proof.
  unfold compute_edges_edge.
  destruct (FindFromKey edge) as [|face rest]; [by rewrite app_nil_r|].
  destruct (Triangulation_s face) as [[triangle loc]|]; [|by rewrite app_nil_r].
  destruct (PolygonOnTriangulation edge triangle loc) as [poly|];
    [|by rewrite app_nil_r].
  by rewrite !fold_edge_step.
Qed.

Lemma fold_compute_edges_edge_app (es : list (TopoDS_Edge F))
    (acc : list (XYZ F * XYZ F)) :
  fold_left compute_edges_edge es acc = acc ++ fold_left compute_edges_edge es [].
Proof.
  revert acc. induction es as [|edge es IH]; intros acc; [by rewrite app_nil_r|].
  cbn [fold_left]. rewrite IH, (IH (compute_edges_edge [] edge)).
  by rewrite compute_edges_edge_app, app_assoc.
Qed.

(** The outer loop of [compute_edges], edge by edge. *)
Lemma fold_compute_edges_edge_concat (es : list (TopoDS_Edge F))
    (acc : list (XYZ F * XYZ F)) :
  fold_left compute_edges_edge es acc
  = acc ++ concat (map (compute_edges_edge []) es).
Proof.
  rewrite fold_compute_edges_edge_app. f_equal.
  induction es as [|edge es IH]; [done|].
  cbn [fold_left map concat]. by rewrite fold_compute_edges_edge_app, IH.
Qed.

(** C6 (edge segment count).  Once the shape is set [compute_edges] does not
    raise, and the edge buffer it leaves is the one it found followed by
    the segments of each edge of the shape, edge after edge.  An edge
    without adjacent face, an edge whose first adjacent face has no
    triangulation and an edge without polygon on that triangulation
    contribute no segment; an edge whose polygon has N node indices
    contributes the N - 1 segments joining consecutive nodes (none when N is
    0 or 1).  The segments of an edge are what the body of the loop appends
    to the buffer, whatever the buffer holds. *)
Theorem edge_segment_count (self : t F) (s : TopoDS_Shape F) :
  shape self = Some s →
  ∃ segments : list (list (XYZ F * XYZ F)),
    compute_edges self = Ok (set_edges self (edges self ++ concat segments))
    ∧ Forall2 (λ edge segs,
        (∀ buffer, compute_edges_edge buffer edge = buffer ++ segs)
        ∧ (FindFromKey edge = [] → segs = [])
        ∧ (∀ face rest, FindFromKey edge = face :: rest →
             Triangulation_s face = None → segs = [])
        ∧ (∀ face rest triangle loc, FindFromKey edge = face :: rest →
             Triangulation_s face = Some (triangle, loc) →
             PolygonOnTriangulation edge triangle loc = None → segs = [])
        ∧ (∀ face rest triangle loc poly, FindFromKey edge = face :: rest →
             Triangulation_s face = Some (triangle, loc) →
             PolygonOnTriangulation edge triangle loc = Some poly →
             segs = consecutive (polygon_points triangle loc poly)
             ∧ length segs = (polygon_size poly - 1)%nat))
      (Edges s) segments.
Proof.
  intros Hs. exists (map (compute_edges_edge []) (Edges s)). split.
  { unfold compute_edges. by rewrite Hs, fold_compute_edges_edge_concat. }
  induction (Edges s) as [|edge es IH]; [constructor|].
  cbn [map]. constructor; [|exact IH].
  split; [intros buffer; apply compute_edges_edge_app|].
  unfold compute_edges_edge. split_and!.
  - by intros ->.
  - by intros face rest -> ->.
  - by intros face rest triangle loc -> -> ->.
  - intros face rest triangle loc poly -> -> ->. split.
    + by rewrite fold_edge_step.
    + rewrite fold_edge_step. cbn [app].
      by rewrite length_consecutive, length_app, length_map, length_polygon_indices.
Qed.
End Edge_extraction.

Section Discretizer.
Context {F : Type} `{!Float64 F, !OCP F, !Utils F, !Sys}.

(** The loop of [discretize_edge] stays inside [points] and collects the
    segments between consecutive points. *)
Lemma fold_discretize_step (points : list (XYZ F)) (k : nat) :
  (k ≤ length points - 1)%nat →
  fold_left (discretize_step points) (map Z.of_nat (seq 0 k)) (Ok [])
  = Ok (take k (consecutive points)).
Proof.
  induction k as [|k IH]; intros Hk; [done|].
  rewrite seq_S, map_app, fold_left_app, IH by lia.
  cbn [plus map fold_left discretize_step mbind Result_bind].
  replace (Z.to_nat (Z.of_nat k + 1)) with (S k) by lia. rewrite Nat2Z.id.
  destruct (lookup_lt_is_Some_2 points k ltac:(lia)) as [p Hp].
  destruct (lookup_lt_is_Some_2 points (S k) ltac:(lia)) as [q Hq].
  rewrite Hp, Hq. f_equal. symmetry. apply take_S_r.
  unfold consecutive. apply lookup_zip_Some. by rewrite lookup_tail.
Qed.

(** C9 (sampling failure and segment count).  When the sampler is not done
    [discretize_edge] raises; when it is done and reports N points, the
    result is the N - 1 segments joining consecutive points, converted to
    float32. *)
Theorem discretize_edge_segments (edge : TopoDS_Edge F) (deflection : F) :
  let curve := Curve edge in
  let discretizer :=
    GCPnts_Initialize curve deflection (FirstParameter curve) (LastParameter curve) in
  let points :=
    map (λ i, Value curve (GCPnts_Parameter discretizer i))
        (seq 1 (NbPoints discretizer)) in
  (IsDone discretizer = false →
     discretize_edge edge deflection = Raise (AssertionError "Discretizer not done."))
  ∧ (IsDone discretizer = true →
       ∃ segments,
         discretize_edge edge deflection = Ok segments
         ∧ length segments = (NbPoints discretizer - 1)%nat
         ∧ segments = map (λ '(p, q), (Tessellator.float32_xyz p,
                                       Tessellator.float32_xyz q))
                          (consecutive points)).
Proof.
  intros curve discretizer points. unfold discretize_edge.
  fold curve. fold discretizer. fold points. split; intros ->; [done|].
  cbn [negb]. unfold py_range.
  replace (Z.to_nat (Z.of_nat (length points) - 1 - 0)) with (length points - 1)%nat by lia.
  rewrite (map_ext _ Z.of_nat) by (intros; lia).
  rewrite fold_discretize_step by done.
  rewrite take_ge by (by rewrite length_consecutive).
  eexists. split; [reflexivity|]. split; [|done].
  rewrite length_map, length_consecutive. unfold points.
  by rewrite length_map, length_seq.
Qed.
End Discretizer.

Section Pure_functions.
Context {F : Type} `{!Float64 F, !OCP F, !Utils F, !Sys}.

(** C5 (quality).  [compute_quality] is the stated expression in
    [round_sig], and it sees the box only through the three sizes rounded
    to two significant digits: a box whose sizes round to the same values
    gets the same quality. *)
Theorem compute_quality_stable (bb : BoundingBox F) (deviation : F) :
  compute_quality bb deviation
  = round_sig
      (f_mul (f_div (f_add (f_add (round_sig (xsize bb) 2) (round_sig (ysize bb) 2))
                           (round_sig (zsize bb) 2))
                    (f_of_int 300))
             deviation) 2
  ∧ ∀ bb' : BoundingBox F,
      round_sig (xsize bb') 2 = round_sig (xsize bb) 2 →
      round_sig (ysize bb') 2 = round_sig (ysize bb) 2 →
      round_sig (zsize bb') 2 = round_sig (zsize bb) 2 →
      compute_quality bb' deviation = compute_quality bb deviation.
Proof.
  split; [reflexivity|]. intros bb' Hx Hy Hz.
  unfold compute_quality. by rewrite Hx, Hy, Hz.
Qed.

(** What [bbox_edges] returns on a dict holding the six extents. *)
Lemma bbox_edges_segments (bb : gmap string F) (xmin xmax ymin ymax zmin zmax : F) :
  bb !! "xmin" = Some xmin → bb !! "xmax" = Some xmax →
  bb !! "ymin" = Some ymin → bb !! "ymax" = Some ymax →
  bb !! "zmin" = Some zmin → bb !! "zmax" = Some zmax →
  bbox_edges bb
  = Ok (map float32 (flatten_segments
      [((xmax, ymax, zmin), (xmax, ymax, zmax)); ((xmax, ymin, zmax), (xmax, ymax, zmax));
       ((xmax, ymin, zmin), (xmax, ymax, zmin)); ((xmax, ymin, zmin), (xmax, ymin, zmax));
       ((xmin, ymax, zmax), (xmax, ymax, zmax)); ((xmin, ymax, zmin), (xmax, ymax, zmin));
       ((xmin, ymax, zmin), (xmin, ymax, zmax)); ((xmin, ymin, zmax), (xmax, ymin, zmax));
       ((xmin, ymin, zmax), (xmin, ymax, zmax)); ((xmin, ymin, zmin), (xmax, ymin, zmin));
       ((xmin, ymin, zmin), (xmin, ymax, zmin)); ((xmin, ymin, zmin), (xmin, ymin, zmax))])).
Proof.
  intros Hx0 Hx1 Hy0 Hy1 Hz0 Hz1.
  unfold bbox_edges, bbox_edges_keys, dict_getitem.
  cbn [mapM]. by rewrite Hx0, Hx1, Hy0, Hy1, Hz0, Hz1.
Qed.

(** C10 (bounding-box wireframe).  On a dict holding the six extents
    [bbox_edges] returns 72 scalars, in float32: twelve segments of two
    points, which are the twelve edges of the box, the first one running
    from (xmax, ymax, zmin) to (xmax, ymax, zmax); nothing else of the dict
    matters.  For the unit box the first segment is (1,1,0), (1,1,1). *)
Theorem bbox_edges_wireframe (bb : gmap string F) (xmin xmax ymin ymax zmin zmax : F) :
  bb !! "xmin" = Some xmin → bb !! "xmax" = Some xmax →
  bb !! "ymin" = Some ymin → bb !! "ymax" = Some ymax →
  bb !! "zmin" = Some zmin → bb !! "zmax" = Some zmax →
  (∃ segments,
     bbox_edges bb = Ok (map float32 (flatten_segments segments))
     ∧ length segments = 12%nat
     ∧ length (map float32 (flatten_segments segments)) = 72%nat
     ∧ segments ≡ₚ box_edges xmin xmax ymin ymax zmin zmax
     ∧ segments !! 0%nat = Some ((xmax, ymax, zmin), (xmax, ymax, zmax)))
  ∧ (∃ scalars,
       bbox_edges unit_box = Ok scalars
       ∧ take 6 scalars = map float32 (map f_of_int [1; 1; 0; 1; 1; 1])).
Proof.
  intros Hx0 Hx1 Hy0 Hy1 Hz0 Hz1. split.
  - eexists. split; [by apply bbox_edges_segments|].
    split; [done|]. split; [done|]. split; [|done].
    unfold box_edges. cbn. solve_Permutation.
  - eexists. split; [by apply bbox_edges_segments|]. done.
Qed.
End Pure_functions.

Section LRUCache_facts.
Context {K V : Type} `{!EqDecision K}.
Variable maxsize : Z.
Variable getsizeof : V → Z.
Implicit Types (c : LRUCache.t (K := K) (V := V)) (k : K) (v : V).

Lemma LRU_lookup_app c c' k :
  LRUCache.lookup (c ++ c') k
  = match LRUCache.lookup c k with
    | Some v => Some v
    | None => LRUCache.lookup c' k
    end.
Proof.
  induction c as [|[k' v'] c IH]; [done|]. cbn [app LRUCache.lookup].
  by destruct (decide (k' = k)).
Qed.

Lemma LRU_lookup_remove c k : LRUCache.lookup (LRUCache.remove c k) k = None.
Proof.
  unfold LRUCache.remove. induction c as [|[k' v'] c IH]; [done|].
  rewrite filter_cons. cbn [fst]. destruct (decide (k' ≠ k)) as [Hne|_]; [|done].
  cbn [LRUCache.lookup]. by destruct (decide (k' = k)).
Qed.

(** An entry just moved or written to the recent end is found. *)
Lemma LRU_lookup_recent c k v :
  LRUCache.lookup (LRUCache.remove c k ++ [(k, v)]) k = Some v.
Proof.
  rewrite LRU_lookup_app, LRU_lookup_remove. cbn [LRUCache.lookup]. by destruct (decide (k = k)).
Qed.

Lemma getitem_hit c c' k v :
  LRUCache.getitem c k = Some (v, c') → LRUCache.lookup c' k = Some v.
Proof.
  unfold LRUCache.getitem. destruct (LRUCache.lookup c k) as [v0|]; [|done].
  intros [= -> <-]. apply LRU_lookup_recent.
Qed.

Lemma setitem_fits c k v :
  getsizeof v ≤ maxsize →
  ∃ c', LRUCache.setitem maxsize getsizeof c k v = Some c'
        ∧ LRUCache.lookup c' k = Some v.
Proof.
  intros Hfit. unfold LRUCache.setitem.
  rewrite bool_decide_eq_false_2 by lia.
  eexists. split; [reflexivity|]. apply LRU_lookup_recent.
Qed.

(** A call that returned a value which fits the cache leaves that value
    under its key. *)
Lemma cached_stores {A} (key : A → Result K) (func : A → Run V) c c' a k l v :
  key a = Ok k →
  LRUCache.cached maxsize getsizeof key func c a = (c', (l, Ok v)) →
  getsizeof v ≤ maxsize →
  LRUCache.lookup c' k = Some v.
Proof.
  intros Hk Hrun Hfit. unfold LRUCache.cached in Hrun. rewrite Hk in Hrun.
  destruct (LRUCache.getitem c k) as [[v0 c0]|] eqn:Hget.
  - injection Hrun as <- <- <-. by eapply getitem_hit.
  - destruct (func a) as [l' [v'|e]]; [|done].
    destruct (setitem_fits c k v' ltac:(by destruct (LRUCache.setitem _ _ _ _ _);
      injection Hrun as _ _ <-)) as (c1 & Hset & Hlook).
    rewrite Hset in Hrun. by injection Hrun as <- _ <-.
Qed.

(** A call whose key is in the cache is served from it, and the function
    is not called. *)
Lemma cached_hit {A} (key : A → Result K) (func : A → Run V) c a k v :
  key a = Ok k → LRUCache.lookup c k = Some v →
  LRUCache.cached maxsize getsizeof key func c a
  = (LRUCache.remove c k ++ [(k, v)], ([], Ok v)).
Proof.
  intros Hk Hlook. unfold LRUCache.cached, LRUCache.getitem. by rewrite Hk, Hlook.
Qed.

(** A call that misses and whose function raises leaves the cache alone. *)
Lemma cached_raise {A} (key : A → Result K) (func : A → Run V) c a k l e :
  key a = Ok k → LRUCache.lookup c k = None → func a = (l, Raise e) →
  LRUCache.cached maxsize getsizeof key func c a = (c, (l, Raise e)).
Proof.
  intros Hk Hlook Hf. unfold LRUCache.cached, LRUCache.getitem.
  by rewrite Hk, Hlook, Hf.
Qed.
End LRUCache_facts.

Section Cache_properties.
Context {F : Type} `{!Float64 F, !OCP F, !Utils F, !Sys}.
Implicit Types (c : Call F) (cache : Cache F).

(** C4 (the key sees only the first shape).  When the first shapes of two
    calls have the same hash and [make_key] binds the same quality, angular
    tolerance, [compute_edges] and [compute_faces] for both, the keys are
    equal, whatever else the shape lists hold; and once the first call has
    returned a result that fits the cache, the second call returns that
    result from the cache, without calling the function. *)
Theorem make_key_first_shape (c1 c2 : Call F) (s1 s2 : TopoDS_Shape F)
    (rest1 rest2 : list (TopoDS_Shape F)) (ce cf d1 p1 d2 p2 : bool) :
  c_shapes c1 = s1 :: rest1 →
  c_shapes c2 = s2 :: rest2 →
  HashCode s1 = HashCode s2 →
  c_quality c1 = c_quality c2 →
  c_angular_tolerance c1 = c_angular_tolerance c2 →
  bind4 "compute_edges" "compute_faces" "debug" "progress" true true false true
        (c_args c1) (c_kwargs c1) = Ok (ce, cf, d1, p1) →
  bind4 "compute_edges" "compute_faces" "debug" "progress" true true false true
        (c_args c2) (c_kwargs c2) = Ok (ce, cf, d2, p2) →
  make_key c1 = Ok (HashCode s1, c_quality c1, c_angular_tolerance c1, ce, cf)
  ∧ make_key c2 = make_key c1
  ∧ ∀ cache cache' log v,
      tessellate cache c1 = (cache', (log, Ok v)) →
      result_size v ≤ maxsize →
      ∃ cache'', tessellate cache' c2 = (cache'', ([], Ok v)).
Proof.
  intros Hs1 Hs2 Hh Hq Ha Hb1 Hb2.
  assert (Hk1 : make_key c1
                = Ok (HashCode s1, c_quality c1, c_angular_tolerance c1, ce, cf))
    by (unfold make_key; by rewrite Hb1, Hs1).
  assert (Hk2 : make_key c2 = make_key c1)
    by (rewrite Hk1; unfold make_key; by rewrite Hb2, Hs2, Hh, Hq, Ha).
  split; [done|]. split; [done|].
  intros cache cache' log v Hrun Hfit. unfold tessellate in *.
  eapply cached_stores in Hrun; [|done..].
  eexists. apply cached_hit; [|done]. by rewrite Hk2.
Qed.

(** C7 (fatal propagation).  On a call that misses the cache and whose
    meshing step raises, the mesher has been called, the caller gets that
    very exception, and the cache is as before; the same call made next
    finds no entry and goes through the mesher again. *)
Theorem fatal_propagation cache c (k : Key F) (compound : TopoDS_Shape F)
    (cf ce d p : bool) (e : PyExc) :
  make_key c = Ok k →
  LRUCache.lookup cache k = None →
  bind4 "compute_faces" "compute_edges" "debug" "progress" true true false true
        (c_args c) (c_kwargs c) = Ok (cf, ce, d, p) →
  compound_of (c_shapes c) = Ok compound →
  BRepMesh_IncrementalMesh (BRepTools_Clean_s compound) (c_quality c) false
    (c_angular_tolerance c) (bool_decide (1 < Tessellator.number_solids compound)%nat)
  = Raise e →
  ∃ log, tessellate cache c = (cache, (log, Raise e))
         ∧ MesherCalled ∈ log
         ∧ tessellate (tessellate cache c).1 c = (cache, (log, Raise e)).
Proof.
  intros Hk Hmiss Hb Hc Hmesh.
  assert (∃ log, tessellate_wrapped c = (log, Raise e) ∧ MesherCalled ∈ log)
    as (log & Hw & Hlog).
  { unfold tessellate_wrapped. rewrite Hb, Hc.
    cbn [mbind Run_bind lift]. unfold Tessellator.compute. rewrite Hmesh.
    destruct p, d; cbn; eexists; (split; [reflexivity|set_solver]). }
  assert (Hrun : tessellate cache c = (cache, (log, Raise e)))
    by (unfold tessellate; by eapply cached_raise).
  exists log. by rewrite !Hrun.
Qed.

(** The value part of a computation does not depend on what is written. *)
Lemma run_bind_result {A B} (m m' : Run A) (k k' : A → Run B) :
  m.2 = m'.2 → (∀ a, (k a).2 = (k' a).2) → (m ≫= k).2 = (m' ≫= k').2.
Proof.
  destruct m as [l r], m' as [l' r']. cbn [snd]. intros <- Hk.
  destruct r as [a|e]; cbn; [|done].
  specialize (Hk a). by destruct (k a), (k' a).
Qed.

Lemma run_bind_lift_result {A B} (r : Result A) (k : A → Run B) :
  (lift r ≫= k).2 = match r with Ok a => (k a).2 | Raise e => Raise e end.
Proof. destruct r as [a|e]; cbn; [|done]. by destruct (k a). Qed.

Lemma with_Timer_result {A} timeit name activity level (body : Run A) :
  (with_Timer timeit name activity level body).2 = body.2.
Proof. by destruct body. Qed.

Lemma compute_flags_result (self : Tessellator.t F) (s : TopoDS_Shape F)
    (quality angular_tolerance : F) (cf ce d p d' p' : bool) :
  (Tessellator.compute self s quality angular_tolerance cf ce d p).2
  = (Tessellator.compute self s quality angular_tolerance cf ce d' p').2.
Proof.
  unfold Tessellator.compute.
  apply run_bind_result; [by destruct p, p'|intros _].
  apply run_bind_result; [by rewrite !with_Timer_result|intros s'].
  apply run_bind_result; [destruct cf; by rewrite ?with_Timer_result|intros self'].
  apply run_bind_result; [destruct ce; by rewrite ?with_Timer_result|done].
Qed.

Lemma bound_same_but_flags c1 c2 (i : nat) (name : string) (dflt : bool) :
  same_but_flags c1 c2 → (i < 2)%nat → name ≠ "debug" → name ≠ "progress" →
  bound (c_args c1) (c_kwargs c1) i name dflt
  = bound (c_args c2) (c_kwargs c2) i name dflt.
Proof.
  intros (_ & _ & _ & Hargs & Hkw) Hi Hd Hp. unfold bound.
  assert (c_args c1 !! i = c_args c2 !! i) as ->.
  { rewrite <- (lookup_take_lt (c_args c1) 2 i), <- (lookup_take_lt (c_args c2) 2 i) by done.
    by rewrite Hargs. }
  assert (c_kwargs c1 !! name = c_kwargs c2 !! name) as ->; [|done].
  rewrite <- (lookup_delete_ne (c_kwargs c1) "progress" name) by done.
  rewrite <- (lookup_delete_ne (delete "progress" (c_kwargs c1)) "debug" name) by done.
  rewrite Hkw. by rewrite !lookup_delete_ne by done.
Qed.

(** C8 (debug and progress stay out of key and result).  Two accepted
    calls that differ at most in how they pass [debug] and [progress] get
    the same key, the wrapped function returns the same value or raises the
    same exception for both, and from the same cache [tessellate] gives the
    same outcome and leaves the same cache. *)
Theorem flags_noninterference c1 c2 :
  same_but_flags c1 c2 → accepted c1 → accepted c2 →
  make_key c1 = make_key c2
  ∧ (tessellate_wrapped c1).2 = (tessellate_wrapped c2).2
  ∧ ∀ cache, (tessellate cache c1).1 = (tessellate cache c2).1
             ∧ (tessellate cache c1).2.2 = (tessellate cache c2).2.2.
Proof.
  intros Hsame [Hk1 Ht1] [Hk2 Ht2].
  pose proof Hsame as (Hshapes & Hq & Ha & _).
  assert (Hkey : make_key c1 = make_key c2).
  { unfold make_key, bind4. fold make_key_params.
    rewrite (Is_true_eq_true _ Hk1), (Is_true_eq_true _ Hk2). cbn.
    rewrite Hshapes, Hq, Ha.
    by rewrite (bound_same_but_flags c1 c2 0 "compute_edges"),
               (bound_same_but_flags c1 c2 1 "compute_faces") by (lia || done). }
  assert (Hw : (tessellate_wrapped c1).2 = (tessellate_wrapped c2).2).
  { unfold tessellate_wrapped, bind4. fold tessellate_params.
    rewrite (Is_true_eq_true _ Ht1), (Is_true_eq_true _ Ht2).
    rewrite !run_bind_lift_result.
    rewrite (bound_same_but_flags c1 c2 0 "compute_faces"),
            (bound_same_but_flags c1 c2 1 "compute_edges") by (lia || done).
    rewrite Hshapes, Hq, Ha.
    destruct (compound_of (c_shapes c2)) as [compound|e]; [|done].
    apply run_bind_result; [apply compute_flags_result|done]. }
  split; [done|]. split; [done|]. intros cache.
  unfold tessellate, LRUCache.cached. rewrite Hkey.
  destruct (make_key c2) as [k|e]; [|done].
  destruct (LRUCache.getitem cache k) as [[v cache']|]; [done|].
  destruct (tessellate_wrapped c1) as [l1 r1], (tessellate_wrapped c2) as [l2 r2].
  cbn [snd] in Hw. subst r2. destruct r1 as [v|e]; [|done].
  by destruct (LRUCache.setitem _ _ _ _ _).
Qed.
End Cache_properties.

(** ** Further properties of the mesh extractor *)

Section Mesh_extraction_more.
Import Tessellator.
Context {F : Type} `{!Float64 F, !OCP F}.
Implicit Types (faces : list (TopoDS_Face F)) (face : TopoDS_Face F).
Implicit Types (st : buffers F) (poly : Poly_Triangulation F).

Lemma number_solids_loop_count (e : list unit) (count : nat) :
  number_solids_loop e count = (count + length e)%nat.
Proof.
  revert count. induction e as [|u e IH]; intros count;
    cbn [number_solids_loop length]; [lia|].
  rewrite IH. lia.
Qed.

(** X9.  [number_solids] returns the number of solids the explorer enumerates. *)
Theorem number_solids_count (s : TopoDS_Shape F) :
  number_solids s = length (Solids s).
Proof. unfold number_solids. by rewrite number_solids_loop_count. Qed.

Lemma tessellate_face_None st face :
  Triangulation_s face = None → tessellate_face st face = (st, None).
Proof. unfold tessellate_face. intros ->. by destruct (decide _). Qed.

(** X3.  Faces without triangulation are passed over: the buffers and the
    offset are those of the triangulated faces alone. *)
Theorem untriangulated_faces_skipped faces :
  tessellate_loop faces
  = tessellate_loop (filter (λ face, is_Some (Triangulation_s face)) faces).
Proof.
  unfold tessellate_loop. f_equal. generalize (buffers0 (F := F)).
  induction faces as [|face faces IH]; intros st; [done|].
  rewrite filter_cons. cbn [tessellate_faces]. destruct (decide _) as [Hs|Hn].
  - cbn [tessellate_faces].
    destruct (tessellate_face st face) as [st' [e|]]; [done|]. apply IH.
  - rewrite tessellate_face_None; [apply IH|].
    by destruct (Triangulation_s face); [destruct Hn|].
Qed.

(** X4.  When no face makes the loop over the normals raise, the triangle
    buffer holds three indices for every kernel triangle: the buffer of the
    loop, and the one [tessellate] returns. *)
Theorem triangle_buffer_length faces :
  Forall (λ face, raises_at_normals face = false) faces →
  length (b_triangles (tessellate_loop faces))
  = (3 * sum_list_with face_triangle_count faces)%nat
  ∧ ∀ (self : t F) s, shape self = Some s → get_faces s = faces →
      ∃ self', tessellate self = Ok self'
        ∧ length (triangles self') = (3 * sum_list_with face_triangle_count faces)%nat.
Proof.
  intros Hall. split; [by apply triangle_count_loop|].
  intros self s Hs <-. rewrite (tessellate_eq self s Hs).
  rewrite (proj1 (noraise_existsb _) Hall). eexists. split; [reflexivity|].
  cbn [triangles set_buffers]. by apply triangle_count_loop.
Qed.

(** X5.  The buffers are append-only: what they hold once the first [k] faces
    are processed is still there, at the same place, at the end. *)
Theorem buffers_append_only faces k :
  b_vertices (after faces k) `prefix_of` b_vertices (tessellate_loop faces)
  ∧ b_triangles (after faces k) `prefix_of` b_triangles (tessellate_loop faces)
  ∧ b_normals (after faces k) `prefix_of` b_normals (tessellate_loop faces).
Proof. apply after_prefix. Qed.

Lemma flat_map_block {A B} (f : A → list B) (n : nat) (l : list A) (rest : list B)
    (m : nat) (a : A) :
  (∀ x, length (f x) = n) → l !! m = Some a →
  take n (drop (n * m) (flat_map f l ++ rest)) = f a.
Proof.
  intros Hf. revert m. induction l as [|x l IH]; intros m Hm; [done|].
  cbn [flat_map]. rewrite <- app_assoc. destruct m as [|m].
  - injection Hm as ->. rewrite Nat.mul_0_r, drop_0.
    by rewrite take_app_length' by done.
  - replace (n * S m)%nat with (length (f x) + n * m)%nat by (rewrite Hf; lia).
    rewrite <- drop_drop, drop_app_length. by apply IH.
Qed.

(** X1.  When no face before it makes the loop over the normals raise, the
    index emitted for node [n] of a face (the node number plus the offset
    at that face) is the place of that node, transformed by the location of
    the face, in the vertex buffer the loop leaves, and in the one
    [tessellate] returns. *)
Theorem emitted_index_points_to_node faces (i : nat) face poly (loc : gp_Trsf F)
    (n : nat) :
  faces !! i = Some face →
  Triangulation_s face = Some (poly, loc) →
  Forall (λ f, raises_at_normals f = false) (take i faces) →
  (1 ≤ n ≤ NbNodes poly)%nat →
  vertex_at (b_vertices (tessellate_loop faces))
            (Z.to_nat (Z.of_nat n + offset (after faces i)))
  = Coord (Transformed (Node poly n) loc)
  ∧ ∀ (self self' : t F) s, shape self = Some s → get_faces s = faces →
      tessellate self = Ok self' →
      vertex_at (vertices self') (Z.to_nat (Z.of_nat n + offset (after faces i)))
      = Coord (Transformed (Node poly n) loc).
Proof.
  intros Hi Hpoly Hbefore Hn.
  cut (vertex_at (b_vertices (tessellate_loop faces))
                 (Z.to_nat (Z.of_nat n + offset (after faces i)))
       = Coord (Transformed (Node poly n) loc)).
  { intros Hloop. split; [done|]. intros self self' s Hs <- Hrun.
    destruct (tessellate_Ok_buffers self self' s Hs Hrun) as (_ & -> & _). done. }
  unfold vertex_at.
  assert (Hr : tessellate_raised (take i faces) = None)
    by (rewrite tessellate_raised_take; by rewrite (proj1 (noraise_existsb _) Hbefore)).
  destruct (after_prefix faces (S i)) as ([rest ->] & _).
  rewrite (after_S _ _ _ Hi Hr).
  destruct (tessellate_loop_counts (take i faces) Hbefore) as (Hlen & _ & Hoff).
  fold (after faces i) in Hlen, Hoff. rewrite Hoff.
  set (N := sum_list_with face_nodes (take i faces)) in *.
  assert (b_vertices (tessellate_face (after faces i) face).1
          = b_vertices (after faces i)
            ++ flat_map (λ j, Coord (Transformed (Node poly j) loc))
                        (seq 1 (NbNodes poly))) as ->.
  { rewrite tessellate_face_eq, Hpoly. cbv zeta.
    by destruct (raises_at_normals face). }
  replace (3 * Z.to_nat (Z.of_nat n + (Z.of_nat N - 1)))%nat
    with (length (b_vertices (after faces i)) + 3 * (n - 1))%nat by lia.
  rewrite <- app_assoc, <- drop_drop, drop_app_length.
  apply (flat_map_block (λ j, Coord (Transformed (Node poly j) loc)) 3 _ _ _ n);
    [intros; apply length_Coord|].
  rewrite lookup_seq. split_and!; [f_equal|]; lia.
Qed.

(** X2.  On a face with UV nodes that is not internal, when every face
    before it has UV nodes for all its nodes and does not make the loop
    over the normals raise, the normal computed for a node sits in the
    normals buffer at the index of the vertex of that node: in the buffer
    the loop leaves, and in the one [tessellate] returns. *)
Theorem normal_at_vertex_index faces (i : nat) face poly (loc : gp_Trsf F)
    (n : nat) :
  faces !! i = Some face →
  Triangulation_s face = Some (poly, loc) →
  HasUVNodes poly = true →
  Orientation face ≠ TopAbs_INTERNAL →
  Forall (λ f, face_uv_nodes f = face_nodes f ∧ raises_at_normals f = false)
         (take i faces) →
  (1 ≤ n ≤ NbNodes poly)%nat →
  node_normal face poly false n
  = Ok (vertex_at (b_normals (tessellate_loop faces))
                  (Z.to_nat (Z.of_nat n + offset (after faces i))))
  ∧ ∀ (self self' : t F) s, shape self = Some s → get_faces s = faces →
      tessellate self = Ok self' →
      node_normal face poly false n
      = Ok (vertex_at (normals self')
                      (Z.to_nat (Z.of_nat n + offset (after faces i)))).
Proof.
  intros Hi Hpoly Huv Hint Hall Hn.
  cut (node_normal face poly false n
       = Ok (vertex_at (b_normals (tessellate_loop faces))
                       (Z.to_nat (Z.of_nat n + offset (after faces i))))).
  { intros Hloop. split; [done|]. intros self self' s Hs <- Hrun.
    destruct (tessellate_Ok_buffers self self' s Hs Hrun) as (_ & _ & _ & ->). done. }
  rewrite node_normal_not_internal. f_equal.
  symmetry. unfold vertex_at.
  assert (Hbefore : Forall (λ f, raises_at_normals f = false) (take i faces))
    by (eapply Forall_impl; [exact Hall|by intros f [_ ?]]).
  assert (Hr : tessellate_raised (take i faces) = None)
    by (rewrite tessellate_raised_take; by rewrite (proj1 (noraise_existsb _) Hbefore)).
  destruct (after_prefix faces (S i)) as (_ & _ & [rest ->]).
  rewrite (after_S _ _ _ Hi Hr).
  destruct (tessellate_loop_counts (take i faces) Hbefore) as (_ & Hlen & Hoff).
  fold (after faces i) in Hlen, Hoff. rewrite Hoff.
  assert (sum_list_with face_uv_nodes (take i faces)
          = sum_list_with face_nodes (take i faces)) as Hsum.
  { clear Hlen Hoff Hbefore Hr. induction Hall as [|f fs [Hf _] _ IH]; [done|].
    cbn [sum_list_with]. lia. }
  rewrite Hsum in Hlen. set (N := sum_list_with face_nodes (take i faces)) in *.
  assert (Hface : raises_at_normals face = false).
  { unfold raises_at_normals. rewrite Hpoly. by rewrite bool_decide_eq_false_2. }
  assert (b_normals (tessellate_face (after faces i) face).1
          = b_normals (after faces i)
            ++ flat_map (normal_coords face poly) (seq 1 (NbNodes poly))) as ->.
  { rewrite tessellate_face_eq, Hpoly. cbv zeta. by rewrite Hface, Huv. }
  replace (3 * Z.to_nat (Z.of_nat n + (Z.of_nat N - 1)))%nat
    with (length (b_normals (after faces i)) + 3 * (n - 1))%nat by lia.
  rewrite <- app_assoc, <- drop_drop, drop_app_length.
  apply (flat_map_block (normal_coords face poly) 3 _ _ _ n);
    [intros; apply length_normal_coords|].
  rewrite lookup_seq. split_and!; [f_equal|]; lia.
Qed.

(** X6.  [tessellate] starts from empty buffers: what the object held before
    does not matter, and extracting twice gives what extracting once gives. *)
Theorem tessellate_idempotent (self self' : t F) :
  tessellate self = Ok self' →
  tessellate self' = Ok self'
  ∧ ∀ v tr n, tessellate (set_buffers self v tr n) = Ok self'.
Proof.
  unfold tessellate. destruct (shape self) as [s|] eqn:Hs; [|done].
  destruct (tessellate_faces (get_faces s) buffers0) as [st [e|]] eqn:Hrun; [done|].
  intros [= <-]. cbn [shape set_buffers]. by rewrite Hs, Hrun.
Qed.

(** X7.  [compute_edges] does not start from an empty buffer: it appends the
    segments of the shape to the edges the object holds, so that a second
    run leaves every segment twice. *)
Theorem compute_edges_accumulates (self : t F) (s : TopoDS_Shape F) :
  shape self = Some s →
  compute_edges self = Ok (set_edges self (edges self ++ shape_segments s))
  ∧ (compute_edges self ≫= compute_edges)
    = Ok (set_edges self (edges self ++ shape_segments s ++ shape_segments s)).
Proof.
  intros Hs. unfold shape_segments.
  assert (Hone : ∀ self0 : t F, shape self0 = Some s →
            compute_edges self0
            = Ok (set_edges self0 (edges self0 ++ fold_left compute_edges_edge (Edges s) []))).
  { intros self0 H0. unfold compute_edges.
    by rewrite H0, fold_compute_edges_edge_app. }
  split; [by apply Hone|]. rewrite (Hone self Hs). cbn [mbind Result_bind].
  rewrite Hone by done. cbn. by rewrite <- app_assoc.
Qed.

(** X8.  The two forms of the polygon API give the same node indices when they
    hold the same array. *)
Theorem polygon_api_agree (lower upper : Z) (value : Z → nat) :
  polygon_indices (PolygonNodes lower upper value)
  = polygon_indices
      (PolygonNode (Z.to_nat (upper - lower + 1))
                   (λ j, value (lower + Z.of_nat j - 1))).
Proof.
  cbn [polygon_indices]. unfold py_range.
  replace (upper + 1 - lower) with (upper - lower + 1) by lia.
  generalize (Z.to_nat (upper - lower + 1)). intros n.
  rewrite map_map, <- seq_shift, map_map.
  apply map_ext. intros k. f_equal. lia.
Qed.
End Mesh_extraction_more.

(** ** Further properties of the module-level functions *)

Section Module_level_more.
Context {F : Type} `{!Float64 F, !OCP F, !Utils F, !Sys}.
Implicit Types (c : Call F) (cache : Cache F).

Lemma mapM_dict_getitem (bb : gmap string F) (keys : list string) :
  mapM (dict_getitem bb) keys
  = match list_find (λ k, bb !! k = None) keys with
    | Some (_, k) => Raise (KeyError k)
    | None => Ok (omap (λ k, bb !! k) keys)
    end.
Proof.
  induction keys as [|k keys IH]; [done|].
  cbn [mapM list_find omap].
  assert (dict_getitem bb k
          = match bb !! k with Some x => Ok x | None => Raise (KeyError k) end)
    as -> by done.
  destruct (decide (bb !! k = None)) as [Hk|Hk].
  - by rewrite Hk.
  - destruct (bb !! k) as [x|] eqn:Hx; [|done]. cbn [mbind Result_bind]. rewrite IH.
    destruct (list_find _ keys) as [[j k']|]; cbn; [done|]. by rewrite Hx.
Qed.

(** X17.  [bbox_edges] raises [KeyError] for the first key it reads that the dict
    lacks (it reads xmax, ymax, zmin, zmax, ymin, xmin in this order), and
    returns the 72 scalars otherwise. *)
Theorem bbox_edges_missing_key (bb : gmap string F) :
  bbox_edges bb
  = match list_find (λ k, bb !! k = None)
                    ["xmax"; "ymax"; "zmin"; "zmax"; "ymin"; "xmin"] with
    | Some (_, k) => Raise (KeyError k)
    | None => Ok (map float32 (omap (λ k, bb !! k) bbox_edges_keys))
    end.
Proof.
  unfold bbox_edges. rewrite mapM_dict_getitem. unfold bbox_edges_keys.
  cbn [list_find].
  destruct (decide (bb !! "xmax" = None)) as [|Hx1]; [done|].
  destruct (decide (bb !! "ymax" = None)) as [|Hy1]; [done|].
  destruct (decide (bb !! "zmin" = None)) as [|Hz0]; [done|].
  destruct (decide (bb !! "zmax" = None)) as [|Hz1]; [done|].
  destruct (decide (bb !! "ymin" = None)) as [|Hy0]; [done|].
  destruct (decide (bb !! "xmin" = None)) as [|Hx0]; [done|].
  done.
Qed.

(** X18.  [bbox_edges] looks at the six extents only: dicts that agree on them
    give the same scalars or the same exception. *)
Theorem bbox_edges_six_keys (bb bb' : gmap string F) :
  bb !! "xmin" = bb' !! "xmin" → bb !! "xmax" = bb' !! "xmax" →
  bb !! "ymin" = bb' !! "ymin" → bb !! "ymax" = bb' !! "ymax" →
  bb !! "zmin" = bb' !! "zmin" → bb !! "zmax" = bb' !! "zmax" →
  bbox_edges bb = bbox_edges bb'.
Proof.
  intros Hx0 Hx1 Hy0 Hy1 Hz0 Hz1.
  unfold bbox_edges, bbox_edges_keys, dict_getitem. cbn [mapM].
  by rewrite Hx0, Hx1, Hy0, Hy1, Hz0, Hz1.
Qed.

(** X11.  With an empty list of shapes [make_key] fails on [shape[0]]:
    [tessellate] raises [IndexError] before anything is computed, printed
    or cached. *)
Theorem tessellate_no_shapes cache c :
  c_shapes c = [] →
  binds make_key_params (c_args c) (c_kwargs c) →
  tessellate cache c = (cache, ([], Raise IndexError)).
Proof.
  intros Hs Hb. unfold tessellate, LRUCache.cached, make_key, bind4.
  fold make_key_params. by rewrite (Is_true_eq_true _ Hb), Hs.
Qed.
End Module_level_more.

(** ** Further properties of the cache *)

Section LRUCache_more.
Context {K V : Type} `{!EqDecision K}.
Variable maxsize : Z.
Variable getsizeof : V → Z.
Implicit Types (c : list (K * V)) (k : K) (v : V).

Lemma LRU_lookup_None c k : LRUCache.lookup c k = None ↔ k ∉ c.*1.
Proof.
  induction c as [|[k' v'] c IH]; cbn [LRUCache.lookup fmap list_fmap fst].
  - split; [intros _; apply not_elem_of_nil|done].
  - rewrite not_elem_of_cons. destruct (decide (k' = k)) as [->|Hne].
    + split; [done|]. by intros [? _].
    + rewrite IH. split; [by intros ?; split; [congruence|]|by intros [_ ?]].
Qed.

Lemma LRU_remove_absent c k : k ∉ c.*1 → LRUCache.remove c k = c.
Proof.
  unfold LRUCache.remove. induction c as [|[k' v'] c IH]; [done|].
  cbn [fmap list_fmap fst]. rewrite not_elem_of_cons. intros [Hne Hc].
  rewrite filter_cons_True by (cbn; congruence). by rewrite IH.
Qed.

Lemma LRU_remove_keys c k : (LRUCache.remove c k).*1 = filter (λ k', k' ≠ k) c.*1.
Proof.
  unfold LRUCache.remove. induction c as [|[k' v'] c IH]; [done|].
  cbn [fmap list_fmap fst]. rewrite !filter_cons. cbn [fst].
  destruct (decide (k' ≠ k)); cbn [fmap list_fmap fst]; by rewrite <- IH.
Qed.

Lemma LRU_lookup_remove_ne c k k' :
  k ≠ k' → LRUCache.lookup (LRUCache.remove c k) k' = LRUCache.lookup c k'.
Proof.
  intros Hne. unfold LRUCache.remove. induction c as [|[k0 v0] c IH]; [done|].
  rewrite filter_cons. cbn [fst LRUCache.lookup].
  destruct (decide (k0 ≠ k)) as [Hk|Hk]; cbn [LRUCache.lookup].
  - by rewrite IH.
  - apply dec_stable in Hk as ->. by rewrite decide_False.
Qed.

Lemma LRU_currsize_app c c' :
  LRUCache.currsize getsizeof (c ++ c')
  = LRUCache.currsize getsizeof c + LRUCache.currsize getsizeof c'.
Proof.
  unfold LRUCache.currsize. induction c as [|[k v] c IH]; cbn; [done|].
  rewrite IH. lia.
Qed.

(** Moving an entry to the recent end keeps the accounted size. *)
Lemma LRU_currsize_move c k v :
  NoDup c.*1 → LRUCache.lookup c k = Some v →
  LRUCache.currsize getsizeof (LRUCache.remove c k ++ [(k, v)])
  = LRUCache.currsize getsizeof c.
Proof.
  rewrite LRU_currsize_app. unfold LRUCache.remove.
  induction c as [|[k' v'] c IH]; [done|].
  cbn [fmap list_fmap fst LRUCache.lookup]. rewrite NoDup_cons. intros [Hk' Hnd].
  rewrite filter_cons. cbn [fst].
  destruct (decide (k' = k)) as [->|Hne].
  - intros [= ->]. rewrite decide_False by naive_solver.
    fold (LRUCache.remove c k). rewrite LRU_remove_absent by done.
    unfold LRUCache.currsize. cbn. lia.
  - intros Hl. rewrite decide_True by done. specialize (IH Hnd Hl).
    unfold LRUCache.currsize in *. cbn in *. lia.
Qed.

Lemma LRU_evict_suffix size c : LRUCache.evict maxsize getsizeof size c `suffix_of` c.
Proof.
  induction c as [|kv c IH]; [done|]. cbn [LRUCache.evict].
  destruct (bool_decide _); [by apply suffix_cons_r|done].
Qed.

Lemma LRU_evict_fits size c :
  size ≤ maxsize →
  LRUCache.currsize getsizeof (LRUCache.evict maxsize getsizeof size c) + size ≤ maxsize.
Proof.
  intros Hfit. induction c as [|kv c IH]; [cbn; lia|]. cbn [LRUCache.evict].
  destruct (bool_decide _) eqn:Hb; [done|].
  apply bool_decide_eq_false in Hb. lia.
Qed.

(** Writing after a miss: the cache is a suffix of the old one followed by
    the new entry, within the budget and without double keys. *)
Lemma LRU_setitem_miss c c' k v :
  NoDup c.*1 → LRUCache.lookup c k = None →
  LRUCache.setitem maxsize getsizeof c k v = Some c' →
  NoDup c'.*1 ∧ LRUCache.currsize getsizeof c' ≤ maxsize
  ∧ ∀ k', k' ≠ k → LRUCache.lookup c k' = None → LRUCache.lookup c' k' = None.
Proof.
  intros Hnd Hmiss. unfold LRUCache.setitem. rewrite Hmiss.
  destruct (bool_decide _) eqn:Hb; [done|]. apply bool_decide_eq_false in Hb.
  intros [= <-].
  pose proof (LRU_evict_suffix (getsizeof v) c) as [pre Hc].
  set (c1 := LRUCache.evict maxsize getsizeof (getsizeof v) c) in *.
  assert (Hsub : ∀ k', k' ∈ c1.*1 → k' ∈ c.*1).
  { intros k' Hin. rewrite Hc, fmap_app, elem_of_app. by right. }
  assert (Hk : k ∉ c1.*1) by (intros Hin; by apply LRU_lookup_None in Hmiss; auto).
  rewrite LRU_remove_absent by done. split_and!.
  - rewrite fmap_app, NoDup_app. split_and!.
    + rewrite Hc, fmap_app, NoDup_app in Hnd. apply Hnd.
    + intros k' Hin. cbn. rewrite list_elem_of_singleton. by intros ->.
    + apply NoDup_singleton.
  - rewrite LRU_currsize_app. pose proof (LRU_evict_fits (getsizeof v) c ltac:(lia)).
    fold c1 in H. unfold LRUCache.currsize at 2. cbn. lia.
  - intros k' Hne Hnone. apply LRU_lookup_None. apply LRU_lookup_None in Hnone.
    rewrite fmap_app, not_elem_of_app. split; [by auto|].
    cbn. rewrite list_elem_of_singleton. done.
Qed.
End LRUCache_more.

Section Cache_more.
Context {F : Type} `{!Float64 F, !OCP F, !Utils F, !Sys}.
Implicit Types (c : Call F) (cache : Cache F).

Lemma cached_miss_runs {K V A : Type} `{!EqDecision K} (maxsize : Z)
    (getsizeof : V → Z) (key : A → Result K) (func : A → Run V)
    (cc : list (K * V)) (a : A) (k : K) :
  key a = Ok k → LRUCache.lookup cc k = None →
  (LRUCache.cached maxsize getsizeof key func cc a).2 = func a.
Proof.
  intros Hk Hmiss. unfold LRUCache.cached, LRUCache.getitem. rewrite Hk, Hmiss.
  destruct (func a) as [l [v|e]]; [|done].
  by destruct (LRUCache.setitem _ _ _ _ _).
Qed.

(** X10.  Once the meshing step has succeeded, the wrapped function raises
    only if faces are requested and the loop over the normals of a face
    raises; otherwise it returns: the mesher is asked for parallel work
    exactly when the shape has more than one solid, the face buffers are
    those of the extraction loop over the meshed shape when faces are
    requested, the edge buffer holds the segments of the meshed shape when
    edges are requested, and a buffer that is not requested is empty. *)
Theorem tessellate_wrapped_result c (cf ce d p : bool)
    (compound meshed : TopoDS_Shape F) :
  bind4 "compute_faces" "compute_edges" "debug" "progress" true true false true
        (c_args c) (c_kwargs c) = Ok (cf, ce, d, p) →
  compound_of (c_shapes c) = Ok compound →
  BRepMesh_IncrementalMesh (BRepTools_Clean_s compound) (c_quality c) false
    (c_angular_tolerance c) (bool_decide (1 < length (Solids compound))%nat)
  = Ok meshed →
  let st := Tessellator.tessellate_loop (get_faces meshed) in
  (tessellate_wrapped c).2
  = if cf && existsb raises_at_normals (get_faces meshed)
    then Raise AttributeError
    else
      Ok {| vertices := if cf then map float32 (Tessellator.b_vertices st) else [];
            triangles := if cf then map int32 (Tessellator.b_triangles st) else [];
            normals := if cf then map float32 (Tessellator.b_normals st) else [];
            edges := if ce
                     then map (λ '(v1, v2), (Tessellator.float32_xyz v1,
                                             Tessellator.float32_xyz v2))
                              (shape_segments meshed)
                     else [] |}.
Proof.
  intros Hb Hc Hmesh st. unfold tessellate_wrapped. rewrite Hb, Hc.
  cbn [mbind Run_bind lift]. unfold Tessellator.compute.
  unfold Tessellator.number_solids. rewrite number_solids_loop_count.
  cbn [Nat.add]. rewrite Hmesh.
  pose proof (tessellate_eq
                (Tessellator.set_shape (Tessellator.set_shape Tessellator.init compound)
                                       meshed)
                meshed eq_refl) as Heq.
  fold st in Heq. unfold shape_segments.
  destruct cf, ce, d, p;
    cbn -[Tessellator.tessellate Tessellator.tessellate_loop existsb
          Tessellator.compute_edges_edge];
    rewrite ?Heq;
    by destruct (existsb raises_at_normals (get_faces meshed)).
Qed.

(** X14.  The cache keeps one entry per key and stays within its budget of
    128 MiB of accounted size, whatever call is made. *)
Theorem cache_invariant cache c :
  cache_ok cache → cache_ok (tessellate cache c).1.
Proof.
  intros [Hnd Hsize]. unfold tessellate, LRUCache.cached.
  destruct (make_key c) as [k|e]; [|done].
  unfold LRUCache.getitem.
  destruct (LRUCache.lookup cache k) as [v|] eqn:Hlook.
  - cbn [fst]. split.
    + rewrite fmap_app, LRU_remove_keys, NoDup_app. split_and!.
      * by apply NoDup_filter.
      * intros k' Hin%list_elem_of_filter. cbn. rewrite list_elem_of_singleton.
        by destruct Hin.
      * apply NoDup_singleton.
    + by rewrite LRU_currsize_move.
  - destruct (tessellate_wrapped c) as [l [v|e]]; [|done].
    destruct (LRUCache.setitem _ _ _ _ _) as [cache'|] eqn:Hset; [|done].
    cbn [fst]. by destruct (LRU_setitem_miss _ _ _ _ _ _ Hnd Hlook Hset) as (? & ? & _).
Qed.

(** X13.  Calls at different quality or angular tolerance have different keys:
    a call leaves no entry under the key of the other, which then runs the
    wrapped function in full. *)
Theorem quality_not_aliased cache c1 c2 (k1 k2 : Key F) :
  make_key c1 = Ok k1 → make_key c2 = Ok k2 →
  c_quality c1 ≠ c_quality c2 ∨ c_angular_tolerance c1 ≠ c_angular_tolerance c2 →
  cache_ok cache → LRUCache.lookup cache k2 = None →
  k1 ≠ k2 ∧ (tessellate (tessellate cache c1).1 c2).2 = tessellate_wrapped c2.
Proof.
  intros Hk1 Hk2 Hdiff [Hnd _] Hmiss.
  assert (Hne : k1 ≠ k2).
  { intros <-. unfold make_key in Hk1, Hk2.
    destruct (bind4 _ _ _ _ _ _ _ _ (c_args c1) _) as [[[[? ?] ?] ?]|]; [|done].
    destruct (bind4 _ _ _ _ _ _ _ _ (c_args c2) _) as [[[[? ?] ?] ?]|]; [|done].
    destruct (c_shapes c1), (c_shapes c2); try done.
    cbn in Hk1, Hk2. rewrite <- Hk1 in Hk2. injection Hk2 as _ Hq Ha.
    destruct Hdiff; congruence. }
  split; [done|]. unfold tessellate at 1.
  apply cached_miss_runs with (k := k2); [done|].
  unfold tessellate, LRUCache.cached. rewrite Hk1. unfold LRUCache.getitem.
  destruct (LRUCache.lookup cache k1) as [v|] eqn:Hlook.
  - cbn [fst]. rewrite LRU_lookup_app, LRU_lookup_remove_ne, Hmiss by done.
    cbn [LRUCache.lookup]. by rewrite decide_False.
  - destruct (tessellate_wrapped c1) as [l [v|e]]; [|done].
    destruct (LRUCache.setitem _ _ _ _ _) as [cache'|] eqn:Hset; [|done].
    cbn [fst].
    destruct (LRU_setitem_miss _ _ _ _ _ _ Hnd Hlook Hset) as (_ & _ & Hother).
    by apply Hother.
Qed.

(** X15.  A result whose accounted size exceeds the budget is returned to the
    caller and not stored: the cache is left as it was. *)
Theorem oversized_result_not_cached cache c (k : Key F) (log : list Event)
    (v : MeshResult F) :
  make_key c = Ok k → LRUCache.lookup cache k = None →
  tessellate_wrapped c = (log, Ok v) →
  maxsize < result_size v →
  tessellate cache c = (cache, (log, Ok v)).
Proof.
  intros Hk Hmiss Hrun Hbig.
  unfold tessellate, LRUCache.cached, LRUCache.getitem, LRUCache.setitem.
  rewrite Hk, Hmiss, Hrun. fold (result_size v).
  by rewrite bool_decide_eq_true_2.
Qed.

(** X16.  Room is made at the old end: after a miss whose result is stored, the
    cache is what is left of the old one once its least recently used
    entries are dropped, followed by the new entry. *)
Theorem eviction_drops_oldest cache cache' c (k : Key F) (log : list Event)
    (v : MeshResult F) :
  make_key c = Ok k → LRUCache.lookup cache k = None →
  tessellate cache c = (cache', (log, Ok v)) →
  result_size v ≤ maxsize →
  ∃ dropped kept,
    cache = dropped ++ kept ∧ cache' = kept ++ [(k, v)]
    ∧ (dropped ≠ [] → maxsize < LRUCache.currsize result_size cache + result_size v).
Proof.
  intros Hk Hmiss Hrun Hfit.
  unfold tessellate, LRUCache.cached, LRUCache.getitem, LRUCache.setitem in Hrun.
  rewrite Hk, Hmiss in Hrun.
  destruct (tessellate_wrapped c) as [l [v'|e]]; [|done].
  cbv beta in Hrun. fold (result_size v') in Hrun.
  destruct (bool_decide (maxsize < result_size v')) eqn:Hb.
  { injection Hrun as _ _ ->. apply bool_decide_eq_true in Hb. lia. }
  injection Hrun as <- _ ->.
  destruct (LRU_evict_suffix maxsize result_size (result_size v) cache)
    as [dropped Hsplit].
  exists dropped, (LRUCache.evict maxsize result_size (result_size v) cache).
  split; [done|]. split.
  - rewrite LRU_remove_absent; [done|]. apply LRU_lookup_None in Hmiss.
    intros Hin. apply Hmiss. rewrite Hsplit, fmap_app, elem_of_app. by right.
  - intros Hne. destruct cache as [|kv cache]; cbn [LRUCache.evict] in Hsplit.
    + by destruct dropped.
    + destruct (bool_decide (maxsize < LRUCache.currsize _ _ + _)) eqn:Hev;
        [by apply bool_decide_eq_true in Hev|].
      destruct dropped as [|d dropped]; [done|].
      apply (f_equal length) in Hsplit. rewrite length_app in Hsplit.
      cbn [length] in Hsplit. lia.
Qed.

(** X12.  The fourth and fifth positional arguments are [compute_faces] and
    [compute_edges] for [tessellate] and the other way round for
    [make_key]: a call passing x, y by position gets the key of the call
    passing compute_faces=y, compute_edges=x by keyword, and once its
    result is cached that call is served it. *)
Theorem positional_flags_swapped (shapes : list (TopoDS_Shape F))
    (quality angular : F) (x y : bool) :
  let by_position := positional_call shapes quality angular x y in
  let by_keyword := keyword_call shapes quality angular y x in
  make_key by_position = make_key by_keyword
  ∧ bind4 "compute_faces" "compute_edges" "debug" "progress" true true false true
          (c_args by_position) (c_kwargs by_position) = Ok (x, y, false, true)
  ∧ bind4 "compute_faces" "compute_edges" "debug" "progress" true true false true
          (c_args by_keyword) (c_kwargs by_keyword) = Ok (y, x, false, true)
  ∧ ∀ cache cache' log v,
      tessellate cache by_position = (cache', (log, Ok v)) →
      result_size v ≤ maxsize →
      ∃ cache'', tessellate cache' by_keyword = (cache'', ([], Ok v)).
Proof.
  intros by_position by_keyword.
  assert (Hkey : make_key by_position = make_key by_keyword) by done.
  split; [done|]. split; [done|]. split; [done|].
  intros cache cache' log v Hrun Hfit. unfold tessellate in *.
  destruct (make_key by_position) as [k|e] eqn:Hk;
    [|unfold LRUCache.cached in Hrun; by rewrite Hk in Hrun].
  eapply cached_stores in Hrun; [|done..].
  eexists. by apply cached_hit.
Qed.
End Cache_more.

(** ** The properties on sample shapes *)

Import Exact.

(** The two faces are extracted with every index below the number of
    vertices; the shape that starts with an internal square, which has UV
    nodes, makes [tessellate] raise. *)
Lemma offset_correctness_witness :
  (∃ self', Tessellator.tessellate (Tessellator.set_shape Tessellator.init two_faces)
            = Ok self'
     ∧ (∀ idx, idx ∈ Tessellator.triangles self' →
          0 ≤ idx < Z.of_nat (vertex_count (Tessellator.vertices self'))))
  ∧ (∀ i j idx, (i < j < length (get_faces two_faces))%nat →
       idx ∈ emitted (get_faces two_faces) i →
       ¬ appended_by (get_faces two_faces) j idx)
  ∧ Tessellator.tessellate (Tessellator.set_shape Tessellator.init internal_first)
    = Raise AttributeError.
Proof.
  assert (Hvalid : Forall valid_face (get_faces two_faces))
    by (repeat (constructor; [vm_compute; exact I|]); constructor).
  assert (Hvalid' : Forall valid_face (get_faces internal_first))
    by (repeat (constructor; [vm_compute; exact I|]); constructor).
  assert (Hall : Forall (λ face, raises_at_normals face = false) (get_faces two_faces))
    by (repeat (constructor; [reflexivity|]); constructor).
  destruct (offset_correctness (Tessellator.set_shape Tessellator.init two_faces)
              two_faces eq_refl Hvalid) as (Hret & _ & Hok & _ & Hfwd & _).
  destruct (offset_correctness (Tessellator.set_shape Tessellator.init internal_first)
              internal_first eq_refl Hvalid') as (_ & Hraise & _).
  split; [|split].
  - destruct (Hret Hall) as [self' Hrun]. exists self'. split; [exact Hrun|].
    exact (Hok self' Hrun).
  - exact Hfwd.
  - apply Hraise. reflexivity.
Defined.

(** C2 as stated fails: a square with UV nodes followed by a triangle
    without gives twelve normal coordinates against twenty-one vertex
    coordinates. *)
Lemma normals_alignment_counterexample :
  ∃ self', Tessellator.tessellate (Tessellator.set_shape Tessellator.init two_faces) = Ok self'
    ∧ length (Tessellator.normals self') = 12%nat
    ∧ length (Tessellator.vertices self') = 21%nat
    ∧ ¬ (length (Tessellator.normals self') = 0%nat
         ∨ length (Tessellator.normals self') = length (Tessellator.vertices self')).
Proof.
  eexists. split; [reflexivity|]. split; [reflexivity|]. split; [reflexivity|].
  vm_compute. intros [H|H]; discriminate H.
Qed.

Lemma normals_alignment_witness :
  ∃ self', Tessellator.tessellate (Tessellator.set_shape Tessellator.init two_faces) = Ok self'
    ∧ length (Tessellator.normals self') = 12%nat
    ∧ length (Tessellator.vertices self') = 21%nat.
Proof.
  assert (Hall : Forall (λ face, raises_at_normals face = false) (get_faces two_faces))
    by (repeat (constructor; [reflexivity|]); constructor).
  destruct (normals_alignment (Tessellator.set_shape Tessellator.init two_faces) two_faces
              eq_refl) as [Hret Hlen].
  destruct (Hret Hall) as [self' Hrun].
  destruct (Hlen self' Hrun) as (Hn & Hv & _).
  exists self'. split; [exact Hrun|]. split; [exact Hn | exact Hv].
Defined.

(** A reversed face holding the kernel triangle (1, 2, 3) leaves (0, 2, 1) in
    the triangle buffer; after the forward square, whose triangles are left
    unchanged from 0, it leaves (4, 6, 5); an internal square emits its
    triangles unchanged before the loop is left. *)
Lemma winding_invariant_witness :
  (∃ self', Tessellator.tessellate (Tessellator.set_shape Tessellator.init reversed_triangle)
            = Ok self'
     ∧ take 3 (Tessellator.triangles self') = [0; 2; 1])
  ∧ (∃ self', Tessellator.tessellate (Tessellator.set_shape Tessellator.init two_faces)
              = Ok self'
       ∧ take 6 (Tessellator.triangles self') = [0; 1; 2; 0; 2; 3]
       ∧ take 3 (drop 6 (Tessellator.triangles self')) = [4; 6; 5])
  ∧ emitted (get_faces internal_first) 0 = [0; 1; 2; 0; 2; 3].
Proof.
  assert (Hone : Forall (λ face, raises_at_normals face = false)
                        (get_faces reversed_triangle))
    by (repeat (constructor; [reflexivity|]); constructor).
  assert (Hall : Forall (λ face, raises_at_normals face = false) (get_faces two_faces))
    by (repeat (constructor; [reflexivity|]); constructor).
  destruct (winding_invariant (Tessellator.set_shape Tessellator.init reversed_triangle)
              reversed_triangle 0 (mk_face TopAbs_REVERSED triangle) triangle (λ p, p)
              eq_refl eq_refl eq_refl (Forall_nil_2 _)) as [_ Hrev].
  destruct (winding_invariant (Tessellator.set_shape Tessellator.init two_faces)
              two_faces 0 (mk_face TopAbs_FORWARD square) square (λ p, p)
              eq_refl eq_refl eq_refl (Forall_nil_2 _)) as [_ Hfst].
  destruct (winding_invariant (Tessellator.set_shape Tessellator.init two_faces)
              two_faces 1 (mk_face TopAbs_REVERSED triangle) triangle (λ p, p)
              eq_refl eq_refl eq_refl (Forall_take _ 1 _ Hall)) as [_ Hsnd].
  destruct (winding_invariant (Tessellator.set_shape Tessellator.init internal_first)
              internal_first 0 (mk_face TopAbs_INTERNAL square) square (λ p, p)
              eq_refl eq_refl eq_refl (Forall_nil_2 _)) as [Hint _].
  split; [|split].
  - destruct (Hrev Hone) as (self' & Hrun & Hslice). exists self'. split; [exact Hrun|].
    exact Hslice.
  - destruct (Hfst Hall) as (self' & Hrun & Hslice).
    destruct (Hsnd Hall) as (self'' & Hrun' & Hslice').
    exists self'. split; [exact Hrun|]. split; [exact Hslice|].
    rewrite Hrun in Hrun'. injection Hrun' as <-. exact Hslice'.
  - exact Hint.
Defined.

(** Of the three edges of the square only the one with a polygon leaves
    segments: two, for its three nodes. *)
Lemma edge_segment_count_witness :
  Tessellator.compute_edges (Tessellator.set_shape Tessellator.init three_edges)
  = Ok (Tessellator.set_edges (Tessellator.set_shape Tessellator.init three_edges)
          [((0, 0, 0), (1, 0, 0)); ((1, 0, 0), (1, 1, 0))]%Q).
Proof.
  destruct (edge_segment_count (Tessellator.set_shape Tessellator.init three_edges)
              three_edges eq_refl) as (segments & Hrun & Hall).
  apply Forall2_cons_inv_l in Hall as (s1 & rest1 & H1 & Hall & ->).
  apply Forall2_cons_inv_l in Hall as (s2 & rest2 & H2 & Hall & ->).
  apply Forall2_cons_inv_l in Hall as (s3 & rest3 & H3 & Hall & ->).
  apply Forall2_nil_inv_l in Hall as ->.
  destruct H1 as (_ & Hnone & _). rewrite (Hnone eq_refl) in Hrun.
  destruct H2 as (_ & _ & _ & _ & Hpoly).
  destruct (Hpoly _ _ _ _ _ eq_refl eq_refl eq_refl) as [Hs2 _]. rewrite Hs2 in Hrun.
  destruct H3 as (_ & _ & _ & Hnopoly & _).
  rewrite (Hnopoly _ _ _ _ eq_refl eq_refl eq_refl) in Hrun.
  exact Hrun.
Defined.

Lemma discretize_edge_segments_witness :
  discretize_edge square_edge (1 # 10)%Q
  = Ok [((0, 0, 0), (1, 0, 0)); ((1, 0, 0), (2, 0, 0))]%Q
  ∧ discretize_edge square_edge 0%Q = Raise (AssertionError "Discretizer not done.").
Proof.
  split.
  - destruct (discretize_edge_segments square_edge (1 # 10)%Q) as [_ Hdone].
    destruct Hdone as (segments & -> & _ & ->); reflexivity.
  - destruct (discretize_edge_segments square_edge 0%Q) as [Hfail _].
    apply Hfail. reflexivity.
Defined.

(** Sizes 1.01 x 2 x 3.049 and 1.04 x 2 x 3: both boxes get quality 0.002. *)
Lemma compute_quality_stable_witness :
  compute_quality {| xsize := 1.04; ysize := 2; zsize := 3 |}%Q (1 # 10)%Q
  = compute_quality {| xsize := 1.01; ysize := 2; zsize := 3.049 |}%Q (1 # 10)%Q
  ∧ compute_quality {| xsize := 1.01; ysize := 2; zsize := 3.049 |}%Q (1 # 10)%Q
    = (1 # 500)%Q.
Proof.
  split; [|reflexivity].
  exact (proj2 (compute_quality_stable
                  {| xsize := 1.01; ysize := 2; zsize := 3.049 |}%Q (1 # 10)%Q)
               {| xsize := 1.04; ysize := 2; zsize := 3 |}%Q eq_refl eq_refl eq_refl).
Defined.

Lemma bbox_edges_wireframe_witness :
  (∃ segments,
     bbox_edges (F := Q) unit_box = Ok (map float32 (flatten_segments segments))
     ∧ length segments = 12%nat
     ∧ length (map float32 (flatten_segments segments)) = 72%nat
     ∧ segments ≡ₚ box_edges 0 1 0 1 0 1
     ∧ segments !! 0%nat = Some ((1, 1, 0), (1, 1, 1)))%Q
  ∧ (∃ scalars,
       bbox_edges (F := Q) unit_box = Ok scalars
       ∧ take 6 scalars = [1; 1; 0; 1; 1; 1])%Q.
Proof.
  assert (Hx0 : unit_box (F := Q) !! "xmin" = Some 0%Q) by reflexivity.
  assert (Hx1 : unit_box (F := Q) !! "xmax" = Some 1%Q) by reflexivity.
  assert (Hy0 : unit_box (F := Q) !! "ymin" = Some 0%Q) by reflexivity.
  assert (Hy1 : unit_box (F := Q) !! "ymax" = Some 1%Q) by reflexivity.
  assert (Hz0 : unit_box (F := Q) !! "zmin" = Some 0%Q) by reflexivity.
  assert (Hz1 : unit_box (F := Q) !! "zmax" = Some 1%Q) by reflexivity.
  exact (bbox_edges_wireframe unit_box _ _ _ _ _ _ Hx0 Hx1 Hy0 Hy1 Hz0 Hz1).
Defined.

(** The call with a second shape in the list gets the key of the call
    without it and, run after it, its result. *)
Lemma make_key_first_shape_witness :
  make_key call_longer = make_key call_plain
  ∧ ∃ v cache'',
      (tessellate [] call_plain).2.2 = Ok v
      ∧ tessellate (tessellate [] call_plain).1 call_longer = (cache'', ([], Ok v)).
Proof.
  destruct (make_key_first_shape call_plain call_longer two_faces two_faces
              [] [reversed_triangle] true true false true false true)
    as (_ & Hkey & Hserved); try reflexivity.
  split; [exact Hkey|].
  destruct (tessellate [] call_plain) as [cache' [log [v|e]]] eqn:Hrun;
    [|vm_compute in Hrun; discriminate Hrun].
  destruct (Hserved [] cache' log v Hrun) as [cache'' Hhit].
  - assert (Hv : (tessellate [] call_plain).2.2 = Ok v) by (by rewrite Hrun).
    vm_compute in Hv. injection Hv as <-. vm_compute. discriminate.
  - exists v, cache''. split; [reflexivity | exact Hhit].
Defined.

(** At quality 0 the stand-in mesher raises: the caller gets its exception
    and the cache stays empty. *)
Lemma fatal_propagation_witness :
  ∃ log, tessellate [] call_failing
         = ([], (log, Raise (Standard_Failure "BRepMesh_IncrementalMesh")))
         ∧ MesherCalled ∈ log
         ∧ tessellate (tessellate [] call_failing).1 call_failing
           = ([], (log, Raise (Standard_Failure "BRepMesh_IncrementalMesh"))).
Proof.
  apply (fatal_propagation [] call_failing (11, 0%Q, (1 # 5)%Q, true, true)
           two_faces true true false true); reflexivity.
Defined.

(** Passing [debug=True, progress=False] changes neither key nor result. *)
Lemma flags_noninterference_witness :
  make_key call_plain = make_key call_debug
  ∧ (tessellate_wrapped call_plain).2 = (tessellate_wrapped call_debug).2
  ∧ ∀ cache, (tessellate cache call_plain).1 = (tessellate cache call_debug).1
             ∧ (tessellate cache call_plain).2.2 = (tessellate cache call_debug).2.2.
Proof.
  apply (flags_noninterference call_plain call_debug).
  - repeat split; reflexivity.
  - split; vm_compute; exact I.
  - split; vm_compute; exact I.
Defined.

(** Positional flags reach [make_key] in the order of its own signature:
    [tessellate(shapes, q, a, True, False)] and
    [tessellate(shapes, q, a, compute_faces=True, compute_edges=False)] ask
    for the same outputs and get different keys. *)
Example positional_flags_key :
  make_key (F := Q)
    {| c_shapes := [two_faces]; c_quality := 1%Q; c_angular_tolerance := 1%Q;
       c_args := [true; false]; c_kwargs := ∅ |}
  = Ok (11, 1%Q, 1%Q, true, false)
  ∧ make_key (F := Q)
      {| c_shapes := [two_faces]; c_quality := 1%Q; c_angular_tolerance := 1%Q;
         c_args := [];
         c_kwargs := <["compute_faces" := true]> (<["compute_edges" := false]> ∅) |}
    = Ok (11, 1%Q, 1%Q, false, true).
Proof. split; reflexivity. Qed.

(** ** The further properties on sample shapes *)

(** Node 2 of the reversed triangle, the second face: index 5. *)
Lemma emitted_index_points_to_node_witness :
  vertex_at (Tessellator.b_vertices (Tessellator.tessellate_loop (get_faces two_faces))) 5
  = [1; 0; 1]%Q
  ∧ ∀ self', Tessellator.tessellate (Tessellator.set_shape Tessellator.init two_faces)
             = Ok self' →
      vertex_at (Tessellator.vertices self') 5 = [1; 0; 1]%Q.
Proof.
  assert (Hn : (1 ≤ 2 ≤ NbNodes triangle)%nat) by (vm_compute; lia).
  assert (Hbefore : Forall (λ f, raises_at_normals f = false)
                           (take 1 (get_faces two_faces)))
    by (repeat (constructor; [reflexivity|]); constructor).
  destruct (emitted_index_points_to_node (get_faces two_faces) 1
              (mk_face TopAbs_REVERSED triangle) triangle (λ p, p) 2
              eq_refl eq_refl Hbefore Hn) as [Hloop Hret].
  split; [exact Hloop|]. intros self' Hrun.
  exact (Hret (Tessellator.set_shape Tessellator.init two_faces) self' two_faces
              eq_refl eq_refl Hrun).
Defined.

(** Node 3 of the square, the first face: its normal (0, 0, 1) is at
    index 2. *)
Lemma normal_at_vertex_index_witness :
  Tessellator.node_normal (mk_face TopAbs_FORWARD square) square false 3
  = Ok (vertex_at
          (Tessellator.b_normals (Tessellator.tessellate_loop (get_faces two_faces))) 2)
  ∧ vertex_at (Tessellator.b_normals (Tessellator.tessellate_loop (get_faces two_faces))) 2
    = [0; 0; 1]%Q
  ∧ ∀ self', Tessellator.tessellate (Tessellator.set_shape Tessellator.init two_faces)
             = Ok self' →
      Tessellator.node_normal (mk_face TopAbs_FORWARD square) square false 3
      = Ok (vertex_at (Tessellator.normals self') 2).
Proof.
  assert (Hn : (1 ≤ 3 ≤ NbNodes square)%nat) by (vm_compute; lia).
  assert (Hint : Orientation (mk_face TopAbs_FORWARD square) ≠ TopAbs_INTERNAL)
    by discriminate.
  destruct (normal_at_vertex_index (get_faces two_faces) 0
              (mk_face TopAbs_FORWARD square) square (λ p, p) 3
              eq_refl eq_refl eq_refl Hint (Forall_nil_2 _) Hn) as [Hat Hret].
  split; [exact Hat|]. split; [reflexivity|]. intros self' Hrun.
  exact (Hret (Tessellator.set_shape Tessellator.init two_faces) self' two_faces
              eq_refl eq_refl Hrun).
Defined.

(** Two triangles for the square and one for the triangle: nine indices. *)
Lemma triangle_buffer_length_witness :
  length (Tessellator.b_triangles (Tessellator.tessellate_loop (get_faces two_faces)))
  = 9%nat
  ∧ ∃ self', Tessellator.tessellate (Tessellator.set_shape Tessellator.init two_faces)
             = Ok self'
      ∧ length (Tessellator.triangles self') = 9%nat.
Proof.
  assert (Hall : Forall (λ face, raises_at_normals face = false) (get_faces two_faces))
    by (repeat (constructor; [reflexivity|]); constructor).
  destruct (triangle_buffer_length (get_faces two_faces) Hall) as [Hloop Hret].
  split; [exact Hloop|].
  exact (Hret (Tessellator.set_shape Tessellator.init two_faces) two_faces
              eq_refl eq_refl).
Defined.

Lemma tessellate_idempotent_witness :
  ∃ self', Tessellator.tessellate (Tessellator.set_shape Tessellator.init two_faces)
           = Ok self'
    ∧ Tessellator.tessellate self' = Ok self'.
Proof.
  eexists. split; [reflexivity|].
  eapply (proj1 (tessellate_idempotent
                   (Tessellator.set_shape Tessellator.init two_faces) _ eq_refl)).
Defined.

(** Running the edge extractor twice on the square leaves its two
    segments twice. *)
Lemma compute_edges_accumulates_witness :
  (Tessellator.compute_edges (Tessellator.set_shape Tessellator.init square_shape)
   ≫= Tessellator.compute_edges)
  = Ok (Tessellator.set_edges (Tessellator.set_shape Tessellator.init square_shape)
          [((0, 0, 0), (1, 0, 0)); ((1, 0, 0), (1, 1, 0));
           ((0, 0, 0), (1, 0, 0)); ((1, 0, 0), (1, 1, 0))]%Q).
Proof.
  exact (proj2 (compute_edges_accumulates
                  (Tessellator.set_shape Tessellator.init square_shape)
                  square_shape eq_refl)).
Defined.

Lemma bbox_edges_six_keys_witness :
  bbox_edges unit_box_tagged = bbox_edges (F := Q) unit_box.
Proof.
  apply (bbox_edges_six_keys unit_box_tagged unit_box); reflexivity.
Defined.

Lemma tessellate_no_shapes_witness :
  tessellate [] call_no_shapes = ([], ([], Raise IndexError)).
Proof.
  apply (tessellate_no_shapes [] call_no_shapes); [reflexivity|].
  vm_compute. exact I.
Defined.

(** The square shape has two solids: the mesher is asked for parallel
    work; the result holds four vertices, two triangles, four normals and
    the two segments of the edge.  The shape that starts with the internal
    square gives no result. *)
Lemma tessellate_wrapped_result_witness :
  (tessellate_wrapped call_square).2
  = Ok {| vertices := [0; 0; 0; 1; 0; 0; 1; 1; 0; 0; 1; 0]%Q;
          triangles := [0; 1; 2; 0; 2; 3];
          normals := [0; 0; 1; 0; 0; 1; 0; 0; 1; 0; 0; 1]%Q;
          edges := [((0, 0, 0), (1, 0, 0)); ((1, 0, 0), (1, 1, 0))]%Q |}
  ∧ (tessellate_wrapped call_internal).2 = Raise AttributeError.
Proof.
  split.
  - exact (tessellate_wrapped_result call_square true true false true
             square_shape square_shape eq_refl eq_refl eq_refl).
  - exact (tessellate_wrapped_result call_internal true true false true
             internal_first internal_first eq_refl eq_refl eq_refl).
Defined.

Lemma cache_invariant_witness :
  cache_ok (tessellate [] call_plain).1.
Proof.
  apply (cache_invariant [] call_plain). split; [constructor|].
  vm_compute. discriminate.
Defined.

Lemma quality_not_aliased_witness :
  (tessellate (tessellate [] call_plain).1 call_coarse).2
  = tessellate_wrapped call_coarse.
Proof.
  apply (quality_not_aliased [] call_plain call_coarse
           (11, (1 # 100)%Q, (1 # 5)%Q, true, true)
           (11, (1 # 10)%Q, (1 # 5)%Q, true, true)).
  - reflexivity.
  - reflexivity.
  - left. cbn. discriminate.
  - split; [constructor|]. vm_compute. discriminate.
  - reflexivity.
Defined.

(** With 2^28 reported for a dict no result fits: the value is returned
    and the cache stays empty. *)
Lemma oversized_result_not_cached_witness :
  tessellate (H := Sys_of (2 ^ 28)) [] call_plain
  = ([], tessellate_wrapped call_plain).
Proof.
  apply (oversized_result_not_cached (H := Sys_of (2 ^ 28)) [] call_plain
           (11, (1 # 100)%Q, (1 # 5)%Q, true, true)); reflexivity.
Defined.

(** With 2^26 reported for a dict the second result does not fit beside
    the first one, which is dropped. *)
Lemma eviction_drops_oldest_witness :
  ∃ dropped kept,
    [(key_plain, two_faces_mesh)] = dropped ++ kept
    ∧ (tessellate (H := Sys_of (2 ^ 26)) [(key_plain, two_faces_mesh)] call_coarse).1
      = kept ++ [(key_coarse, two_faces_mesh)]
    ∧ (dropped ≠ [] →
       maxsize < LRUCache.currsize (result_size (H := Sys_of (2 ^ 26)))
                                   [(key_plain, two_faces_mesh)]
                 + result_size (H := Sys_of (2 ^ 26)) two_faces_mesh).
Proof.
  assert (Hrun : tessellate (H := Sys_of (2 ^ 26)) [(key_plain, two_faces_mesh)] call_coarse
                 = ([(key_coarse, two_faces_mesh)],
                    ([Printed "t"; MesherCalled], Ok two_faces_mesh)))
    by (vm_compute; reflexivity).
  assert (Hfit : result_size (H := Sys_of (2 ^ 26)) two_faces_mesh ≤ maxsize)
    by (vm_compute; discriminate).
  pose proof (eviction_drops_oldest (H := Sys_of (2 ^ 26))
                [(key_plain, two_faces_mesh)] [(key_coarse, two_faces_mesh)]
                call_coarse key_coarse [Printed "t"; MesherCalled] two_faces_mesh
                eq_refl) as Hdrops.
  destruct (Hdrops ltac:(vm_compute; reflexivity) Hrun Hfit)
    as (dropped & kept & Hsplit & Hc & Hdrop).
  exists dropped, kept. rewrite Hrun. cbn [fst]. by split_and!.
Defined.

(** A faces-only call by position, then an edges-only call by keyword:
    the second gets the faces of the first and no edges. *)
Lemma positional_flags_swapped_witness :
  make_key (positional_call [square_shape] (1 # 100) (1 # 5) true false)%Q
  = make_key (keyword_call [square_shape] (1 # 100) (1 # 5) false true)%Q
  ∧ ∃ cache' log cache'',
      tessellate [] (positional_call [square_shape] (1 # 100) (1 # 5) true false)%Q
      = (cache', (log, Ok square_faces_mesh))
      ∧ tessellate cache' (keyword_call [square_shape] (1 # 100) (1 # 5) false true)%Q
        = (cache'', ([], Ok square_faces_mesh)).
Proof.
  destruct (positional_flags_swapped [square_shape] (1 # 100)%Q (1 # 5)%Q true false)
    as (Hkey & _ & _ & Hserved).
  split; [exact Hkey|].
  assert (Hrun :
    tessellate [] (positional_call [square_shape] (1 # 100) (1 # 5) true false)%Q
    = ([((13, (1 # 100)%Q, (1 # 5)%Q, true, false), square_faces_mesh)],
       ([Printed "t"; MesherCalled], Ok square_faces_mesh)))
    by (vm_compute; reflexivity).
  assert (Hfit : result_size square_faces_mesh ≤ maxsize)
    by (vm_compute; discriminate).
  destruct (Hserved [] _ _ _ Hrun Hfit) as [cache'' Hhit].
  by eexists _, _, cache''.
Defined.
